(** * Address resolution with cache and regional fallback

    A shallow embedding of [src/services/geocodingService.ts]
    ([geocodeAddress], [geocodeMultipleAddresses], the module-level
    [geocodingCache] and the [fallbackCoordinates] table), together with the
    part of the JavaScript run-time the two functions rely on.

    Conventions of the embedding:
    - a JavaScript string is a [string]; every [ascii] is one code unit in
      the range U+0000..U+00FF, and [trim], [toLowerCase] and [includes]
      follow ECMAScript on that range;
    - a JavaScript number is an IEEE 754 binary64 value, a [spec_float]
      with precision 53 and maximal exponent 1024;
    - the value produced by [response.json()] is a [JSON] tree;
    - an [async] function is a state transformer over the module state
      (cache, log of outbound requests, console) that ends in a
      [Completion]: a returned value or a thrown error;
    - the geocoding provider is a function of the request: every request
      is answered, by a rejection or by a response. *)

From Stdlib Require Import ZArith String Ascii List Bool Lia.
From Stdlib Require Import Floats.SpecFloat.
From stdpp Require Import base option gmap strings.

Local Open Scope string_scope.
Local Open Scope Z_scope.

(** ** The JavaScript run-time used by the service *)

Module JS.

(** *** Strings *)

Definition code (c : ascii) : Z := Z.of_N (N_of_ascii c).

(** WhiteSpace and LineTerminator code units below U+0100: TAB, LF, VT, FF,
    CR, SP and NBSP. *)
Definition isWhiteSpace (c : ascii) : bool :=
  let n := code c in
  ((9 <=? n) && (n <=? 13)) || (n =? 32) || (n =? 160).

Fixpoint trimStart (s : string) : string :=
  match s with
  | String c s' => if isWhiteSpace c then trimStart s' else s
  | EmptyString => EmptyString
  end.

Fixpoint trimEnd (s : string) : string :=
  match s with
  | String c s' =>
      match trimEnd s' with
      | EmptyString => if isWhiteSpace c then EmptyString else String c EmptyString
      | t => String c t
      end
  | EmptyString => EmptyString
  end.

(** [String.prototype.trim] *)
Definition trim (s : string) : string := trimEnd (trimStart s).

(** Lower-case mapping of one code unit: A..Z and the Latin-1 capitals
    U+00C0..U+00DE (U+00D7, the multiplication sign, excepted). *)
Definition lowerChar (c : ascii) : ascii :=
  let n := code c in
  if ((65 <=? n) && (n <=? 90))
     || ((192 <=? n) && (n <=? 222) && negb (n =? 215))
  then ascii_of_N (Z.to_N (n + 32))
  else c.

(** [String.prototype.toLowerCase] *)
Fixpoint toLowerCase (s : string) : string :=
  match s with
  | String c s' => String (lowerChar c) (toLowerCase s')
  | EmptyString => EmptyString
  end.

Fixpoint startsWith (s p : string) : bool :=
  match p, s with
  | EmptyString, _ => true
  | String a p', String b s' => (code a =? code b) && startsWith s' p'
  | String _ _, EmptyString => false
  end.

(** What follows the prefix [p] in [s], when [s] starts with [p]. *)
Fixpoint afterPrefix (s p : string) : option string :=
  match p, s with
  | EmptyString, _ => Some s
  | String a p', String b s' =>
      if code a =? code b then afterPrefix s' p' else None
  | String _ _, EmptyString => None
  end.

(** [String.prototype.includes] *)
Fixpoint includes (s sub : string) : bool :=
  startsWith s sub
  || match s with
     | String _ s' => includes s' sub
     | EmptyString => false
     end.

(** Truthiness of a string: [!s] holds exactly for the empty string. *)
Definition nonEmpty (s : string) : bool :=
  match s with EmptyString => false | String _ _ => true end.

(** *** Numbers *)

Definition Number := spec_float.

Definition prec : Z := 53.
Definition emax : Z := 1024.

Definition NaN : Number := S754_nan.
Definition zero : Number := S754_zero false.

(** The Number value for [(-1)^neg * m * 10^e], rounded to nearest, ties to
    even: the value of a decimal literal with digits [m] and exponent [e].
    (ECMAScript lets an engine round a literal of more than 20 significant
    digits less precisely; the engines in use round it exactly.) *)
Definition ofDecimal (neg : bool) (m : Z) (e : Z) : Number :=
  match m with
  | Zpos p =>
      match e with
      | Zneg k =>
          SFdiv prec emax (S754_finite neg p 0)
                (S754_finite false (Pos.pow 10 k) 0)
      | _ => binary_normalize prec emax ((if neg then - m else m) * 10 ^ e) 0 neg
      end
  | _ => S754_zero neg
  end.

Definition ofZ (n : Z) : Number := binary_normalize prec emax n 0 false.

Definition isNaN (x : Number) : bool :=
  match x with S754_nan => true | _ => false end.

(** Unary minus. *)
Definition neg (x : Number) : Number := SFopp x.

(** [x < y] and [x > y] on numbers. *)
Definition lt (x y : Number) : bool := SFltb x y.
Definition gt (x y : Number) : bool := SFltb y x.
Definition le (x y : Number) : bool := SFleb x y.

(** *** Numeric literals in strings *)

Definition digitValue (c : ascii) : option Z :=
  let n := code c in
  if (48 <=? n) && (n <=? 57) then Some (n - 48) else None.

(** Longest run of decimal digits at the head of [s]: the digits are
    appended to the numeral [acc], [cnt] counts them. *)
Fixpoint readDigits (s : string) (acc cnt : Z) : Z * Z * string :=
  match s with
  | String c s' =>
      match digitValue c with
      | Some d => readDigits s' (10 * acc + d) (cnt + 1)
      | None => (acc, cnt, s)
      end
  | EmptyString => (acc, cnt, s)
  end.

Definition readSign (s : string) : bool * string :=
  match s with
  | String "+" s' => (false, s')
  | String "-" s' => (true, s')
  | _ => (false, s)
  end.

(** ExponentPart (optional): [e] or [E], an optional sign and at least one
    digit; when it is absent or incomplete the exponent is 0 and nothing is
    consumed. *)
Definition readExponent (s : string) : Z * string :=
  match s with
  | String c s' =>
      if (code c =? 101) || (code c =? 69) then
        let '(neg, s1) := readSign s' in
        let '(e, cnt, s2) := readDigits s1 0 0 in
        if 0 <? cnt then ((if neg then - e else e), s2) else (0, s)
      else (0, s)
  | EmptyString => (0, s)
  end.

(** Longest prefix of [s] that is a StrUnsignedDecimalLiteral, with its
    value for the sign [neg] and the rest of the string; [None] when no
    prefix is one. *)
Definition readUnsignedDecimal (neg : bool) (s : string)
  : option (Number * string) :=
  match afterPrefix s "Infinity" with
  | Some rest => Some (S754_infinity neg, rest)
  | None =>
    let '(ip, ni, s1) := readDigits s 0 0 in
    let '(m, nf, s2) :=
      match s1 with
      | String "." s1' =>
          let '(m, nf, s2) := readDigits s1' ip 0 in
          if 0 <? ni + nf then (m, nf, s2) else (ip, 0, s1)
      | _ => (ip, 0, s1)
      end in
    if 0 <? ni + nf then
      let '(e, s3) := readExponent s2 in
      Some (ofDecimal neg m (e - nf), s3)
    else None
  end.

(** Longest prefix that is a StrDecimalLiteral. *)
Definition readDecimal (s : string) : option (Number * string) :=
  let '(neg, s') := readSign s in readUnsignedDecimal neg s'.

(** [parseFloat] applied to a string. *)
Definition parseFloatString (s : string) : Number :=
  match readDecimal (trimStart s) with
  | Some (x, _) => x
  | None => NaN
  end.

(** Digits of a NonDecimalIntegerLiteral in the given radix. *)
Definition radixDigit (radix : Z) (c : ascii) : option Z :=
  let n := code c in
  let d := if (48 <=? n) && (n <=? 57) then n - 48
           else if (97 <=? n) && (n <=? 102) then n - 87
           else if (65 <=? n) && (n <=? 70) then n - 55
           else radix in
  if d <? radix then Some d else None.

Fixpoint readRadix (radix : Z) (s : string) (acc : Z) : option Z :=
  match s with
  | String c s' =>
      match radixDigit radix c with
      | Some d => readRadix radix s' (radix * acc + d)
      | None => None
      end
  | EmptyString => Some acc
  end.

Definition readNonDecimal (s : string) : option Number :=
  match s with
  | String "0" (String c (String d s')) =>
      let n := code c in
      let radix := if (n =? 120) || (n =? 88) then 16
                   else if (n =? 111) || (n =? 79) then 8
                   else if (n =? 98) || (n =? 66) then 2
                   else 0 in
      if radix =? 0 then None
      else option_map ofZ (readRadix radix (String d s') 0)
  | _ => None
  end.

(** StringToNumber: the whole trimmed string is a numeric literal, or it
    is empty (value 0); anything else is NaN. *)
Definition stringToNumber (s : string) : Number :=
  let t := trim s in
  match t with
  | EmptyString => zero
  | _ =>
      match readNonDecimal t with
      | Some x => x
      | None =>
          match readDecimal t with
          | Some (x, EmptyString) => x
          | _ => NaN
          end
      end
  end.

(** *** Values of [response.json()] *)

(** A parsed JSON text. [JObj props] lists the own properties of the
    object, the first binding of a name being the property; the numbers a
    parser produces are binary64 values, the operations below are total on
    every [spec_float]. *)
#[local] Unset Elimination Schemes.
Inductive JSON : Type :=
  | JNull
  | JBool (b : bool)
  | JNum (x : Number)
  | JStr (s : string)
  | JArr (items : list JSON)
  | JObj (props : list (string * JSON)).
#[local] Set Elimination Schemes.

(** Own property [k] of a parsed object, [None] for [undefined]. *)
Fixpoint ownProperty (k : string) (props : list (string * JSON))
  : option JSON :=
  match props with
  | (k', v) :: rest => if String.eqb k k' then Some v else ownProperty k rest
  | [] => None
  end.

(** ToBoolean. *)
Definition truthy (v : JSON) : bool :=
  match v with
  | JNull => false
  | JBool b => b
  | JNum (S754_zero _) | JNum S754_nan => false
  | JNum _ => true
  | JStr s => nonEmpty s
  | JArr _ | JObj _ => true
  end.

(** ToBoolean of a value that may be [undefined]. *)
Definition truthyOpt (v : option JSON) : bool :=
  match v with Some v => truthy v | None => false end.

(** *** Completions *)

Inductive Error : Type :=
  | NetworkError                      (* [fetch] rejected *)
  | SyntaxError                       (* [response.json()] rejected *)
  | TypeError                         (* raised by the run-time *)
  | RequestFailed (status : Z)        (* 'Geocoding request failed: ...' *)
  | InvalidCoordinates                (* 'Invalid coordinates returned' *)
  | AddressNotFound.                  (* 'Address not found' *)

Inductive Completion (A : Type) : Type :=
  | Return (a : A)
  | Throw (e : Error).
Arguments Return {A} a.
Arguments Throw {A} e.

Definition andThen {A B} (c : Completion A) (k : A -> Completion B)
  : Completion B :=
  match c with
  | Return a => k a
  | Throw e => Throw e
  end.

(** The properties the service reads from a candidate. None of them is
    defined on the prototypes of Object, Array, String, Number or Boolean,
    the index [0] of strings and arrays apart. *)
Inductive Key : Type := K0 | Klat | Klon | Kdisplay_name.

Definition keyName (k : Key) : string :=
  match k with
  | K0 => "0"
  | Klat => "lat"
  | Klon => "lon"
  | Kdisplay_name => "display_name"
  end.

(** [v.k] and [v[0]]: a TypeError on [undefined] and [null], the wrapper's
    property on a primitive, the own property on an object. *)
Definition get (v : option JSON) (k : Key) : Completion (option JSON) :=
  match v with
  | None | Some JNull => Throw TypeError
  | Some (JBool _) | Some (JNum _) => Return None
  | Some (JStr s) =>
      match k, s with
      | K0, String c _ => Return (Some (JStr (String c EmptyString)))
      | _, _ => Return None
      end
  | Some (JArr items) =>
      match k with
      | K0 => Return (head items)
      | _ => Return None
      end
  | Some (JObj props) => Return (ownProperty (keyName k) props)
  end.

(** ToString raises a TypeError on an object that carries an own
    [toString] property (a parsed value is never callable, and the valueOf
    inherited from Object.prototype returns the object itself); the [join]
    behind the ToString of an array converts every element but [null]. *)
Fixpoint toStringThrows (v : JSON) : bool :=
  match v with
  | JObj props =>
      match ownProperty "toString" props with
      | Some _ => true
      | None => false
      end
  | JArr items => existsb toStringThrows items
  | _ => false
  end.

(** A number converted to a string and read back is the number itself,
    except that the sign of zero is lost. *)
Definition throughString (x : Number) : Number :=
  match x with S754_zero _ => zero | _ => x end.

(** [parseFloat] of the string form of [v], for [v] whose ToString does not
    throw: the elements of an array are joined by commas, which end the
    numeric prefix, and a [null] element contributes the empty string. *)
Fixpoint parseFloatText (v : JSON) : Number :=
  match v with
  | JNum x => throughString x
  | JStr s => parseFloatString s
  | JArr (first :: _) => parseFloatText first
  | _ => NaN
  end.

(** [parseFloat(v)] *)
Definition parseFloat (v : option JSON) : Completion Number :=
  match v with
  | None => Return NaN
  | Some v => if toStringThrows v then Throw TypeError
              else Return (parseFloatText v)
  end.

(** StringToNumber of the string form of [v], for [v] whose ToString does
    not throw: an array of two or more elements has a comma in its string
    form, which is not a numeric literal. *)
Fixpoint numberOfText (v : JSON) : Number :=
  match v with
  | JNum x => throughString x
  | JStr s => stringToNumber s
  | JArr [] => zero
  | JArr [JNull] => zero
  | JArr [only] => numberOfText only
  | _ => NaN
  end.

(** ToNumber *)
Definition toNumber (v : option JSON) : Completion Number :=
  match v with
  | None => Return NaN
  | Some JNull => Return zero
  | Some (JBool b) => Return (if b then ofZ 1 else zero)
  | Some (JNum x) => Return x
  | Some (JStr s) => Return (stringToNumber s)
  | Some v => if toStringThrows v then Throw TypeError
              else Return (numberOfText v)
  end.

(** [v > 0] *)
Definition gtZero (v : option JSON) : Completion bool :=
  andThen (toNumber v) (fun n => Return (gt n zero)).

(** [v.length > 0]: the length of a string or an array is positive when
    it is not empty; a primitive has no [length], and [undefined > 0] is
    false; an object contributes its own [length] property. *)
Definition lengthPositive (v : JSON) : Completion bool :=
  match v with
  | JNull => Throw TypeError
  | JBool _ | JNum _ => Return false
  | JStr s => Return (nonEmpty s)
  | JArr items => Return (match items with [] => false | _ :: _ => true end)
  | JObj props => gtZero (ownProperty "length" props)
  end.

End JS.

Import JS.

(** ** The service: data *)

Record Coordinates := { lat : Number; lng : Number }.

(** [formattedAddress] is declared a string; at run time it holds whatever
    [data[0].display_name || cleanAddress] evaluates to. *)
Record GeocodingResult := {
  coordinates : Coordinates;
  formattedAddress : JSON
}.

(** The literal [d.dddd] with four decimals, [digits] being its digits. *)
Definition literal4 (negative : bool) (digits : Z) : Number :=
  ofDecimal negative digits (-4).

Module fallbackCoordinates.

Definition us : Coordinates :=
  {| lat := literal4 false 398283; lng := literal4 true 985795 |}.

Definition europe : Coordinates :=
  {| lat := literal4 false 545260; lng := literal4 false 152551 |}.

Definition asia : Coordinates :=
  {| lat := literal4 false 340479; lng := literal4 false 1006197 |}.

Definition default : Coordinates :=
  {| lat := literal4 false 398283; lng := literal4 true 985795 |}.

End fallbackCoordinates.

(** What [console.error] receives. *)
Inductive LogEntry : Type :=
  | GeocodingError (cleanAddress : string) (error : Error)
  | FailedToGeocode (address : string) (error : Error).

(** The module state: the cache, and the two observable traces, the
    queries sent to the provider (oldest first) and the console. *)
Record State := {
  geocodingCache : gmap string GeocodingResult;
  requests : list string;
  console : list LogEntry
}.

Definition initial : State :=
  {| geocodingCache := ∅; requests := []; console := [] |}.

(** ** The provider *)

(** A response: its status and its body, [None] when the body is not JSON
    ([response.json()] rejects). *)
Record Response := { status : Z; body : option JSON }.

(** [response.ok]: the status is in the range 200..299. *)
Definition ok (r : Response) : bool :=
  (200 <=? status r) && (status r <=? 299).

Inductive FetchOutcome : Type :=
  | Rejected
  | Responded (r : Response).

(** The provider answers the query [q] of the [n]-th request ([n] counts
    the requests made before it). *)
Definition Provider := nat -> string -> FetchOutcome.

(** ** Computations *)

Definition M (A : Type) : Type := State -> Completion A * State.

Definition ret {A} (a : A) : M A := fun st => (Return a, st).

Definition throw {A} (e : Error) : M A := fun st => (Throw e, st).

Definition bind {A B} (m : M A) (k : A -> M B) : M B :=
  fun st =>
    match m st with
    | (Return a, st') => k a st'
    | (Throw e, st') => (Throw e, st')
    end.

(** [try { body } catch (error) { handler }] *)
Definition tryCatch {A} (body : M A) (handler : Error -> M A) : M A :=
  fun st =>
    match body st with
    | (Return a, st') => (Return a, st')
    | (Throw e, st') => handler e st'
    end.

(** A run-time operation that touches no state. *)
Definition lift {A} (c : Completion A) : M A := fun st => (c, st).

Declare Scope js_scope.
Delimit Scope js_scope with js.
Notation "x <- m ;; k" := (bind m (fun x => k))
  (at level 100, m at next level, right associativity) : js_scope.
Notation "m ;;; k" := (bind m (fun _ => k))
  (at level 100, right associativity) : js_scope.
Local Open Scope js_scope.

Definition cacheGet (address : string) : M (option GeocodingResult) :=
  fun st => (Return (geocodingCache st !! address), st).

Definition cacheSet (address : string) (r : GeocodingResult) : M unit :=
  fun st =>
    (Return tt,
     {| geocodingCache := <[address := r]> (geocodingCache st);
        requests := requests st;
        console := console st |}).

Definition consoleError (entry : LogEntry) : M unit :=
  fun st =>
    (Return tt,
     {| geocodingCache := geocodingCache st;
        requests := requests st;
        console := (console st ++ [entry])%list |}).

(** [await fetch(...)] for the query [q], which the source places in the
    URL through [encodeURIComponent] (it cannot fail on code units below
    U+0100): the request is logged, the provider's answer decides between
    a response and a rejection. *)
Definition fetch (provider : Provider) (q : string) : M Response :=
  fun st =>
    let st' := {| geocodingCache := geocodingCache st;
                  requests := (requests st ++ [q])%list;
                  console := console st |} in
    match provider (List.length (requests st)) q with
    | Responded r => (Return r, st')
    | Rejected => (Throw NetworkError, st')
    end.

(** [await response.json()] *)
Definition json (r : Response) : M JSON :=
  match body r with
  | Some v => ret v
  | None => throw SyntaxError
  end.

(** ** The service: operations *)

(** [a || b] *)
Definition orElse (a : option JSON) (b : JSON) : JSON :=
  match a with
  | Some v => if truthy v then v else b
  | None => b
  end.

(** The test [data && data.length > 0 && data[0].lat && data[0].lon],
    evaluated left to right with short-circuit. *)
Definition hasCandidate (data : JSON) : Completion bool :=
  if negb (truthy data) then Return false else
  andThen (lengthPositive data) (fun positive =>
  if negb positive then Return false else
  andThen (get (Some data) K0) (fun first =>
  andThen (get first Klat) (fun latField =>
  if negb (truthyOpt latField) then Return false else
  andThen (get first Klon) (fun lonField =>
  Return (truthyOpt lonField))))).

(** The test of line 50. *)
Definition invalidCoordinates (lat lng : Number) : bool :=
  isNaN lat || isNaN lng
  || lt lat (neg (ofZ 90)) || gt lat (ofZ 90)
  || lt lng (neg (ofZ 180)) || gt lng (ofZ 180).

(** The region chosen in the [catch] block. *)
Definition fallbackCoords (lowerAddress : string) : Coordinates :=
  if includes lowerAddress "europe" || includes lowerAddress "uk"
     || includes lowerAddress "germany" || includes lowerAddress "france"
  then fallbackCoordinates.europe
  else if includes lowerAddress "asia" || includes lowerAddress "china"
          || includes lowerAddress "japan" || includes lowerAddress "india"
  then fallbackCoordinates.asia
  else fallbackCoordinates.default.

Definition geocodeAddress (provider : Provider) (address : string)
  : M GeocodingResult :=
  cached <- cacheGet address ;;
  match cached with
  | Some hit => ret hit
  | None =>
      let cleanAddress := trim address in
      if negb (nonEmpty cleanAddress) then
        let fallbackResult :=
          {| coordinates := fallbackCoordinates.default;
             formattedAddress := JStr "Unknown Location" |} in
        cacheSet address fallbackResult ;;;
        ret fallbackResult
      else
        tryCatch
          (response <- fetch provider cleanAddress ;;
           if negb (ok response) then throw (RequestFailed (status response))
           else
             data <- json response ;;
             found <- lift (hasCandidate data) ;;
             if found then
               first <- lift (get (Some data) K0) ;;
               latField <- lift (get first Klat) ;;
               lat <- lift (parseFloat latField) ;;
               lonField <- lift (get first Klon) ;;
               lng <- lift (parseFloat lonField) ;;
               if invalidCoordinates lat lng then throw InvalidCoordinates
               else
                 name <- lift (get first Kdisplay_name) ;;
                 let result :=
                   {| coordinates := {| lat := lat; lng := lng |};
                      formattedAddress := orElse name (JStr cleanAddress) |} in
                 cacheSet address result ;;;
                 ret result
             else throw AddressNotFound)
          (fun error =>
             consoleError (GeocodingError cleanAddress error) ;;;
             let lowerAddress := toLowerCase cleanAddress in
             let fallbackResult :=
               {| coordinates := fallbackCoords lowerAddress;
                  formattedAddress := JStr cleanAddress |} in
             cacheSet address fallbackResult ;;;
             ret fallbackResult)
  end.

(** [results.push(r)] *)
Definition push {A} (results : list A) (r : A) : list A :=
  (results ++ [r])%list.

(** The [for ... of] loop of [geocodeMultipleAddresses], for any resolver
    called in the [try] block; [results] is the array built so far. *)
Fixpoint forEachAddress (resolve : string -> M GeocodingResult)
    (addresses : list string) (results : list GeocodingResult)
  : M (list GeocodingResult) :=
  match addresses with
  | [] => ret results
  | address :: rest =>
      results' <-
        tryCatch
          (result <- resolve address ;;
           ret (push results result))
          (fun error =>
             consoleError (FailedToGeocode address error) ;;;
             ret (push results
                    {| coordinates := fallbackCoordinates.default;
                       formattedAddress := JStr address |})) ;;
      forEachAddress resolve rest results'
  end.

Definition geocodeMultipleAddresses (provider : Provider)
    (addresses : list string) : M (list GeocodingResult) :=
  forEachAddress (geocodeAddress provider) addresses [].

(** ** What one call does *)

(** The three results [geocodeAddress] builds besides a provider's own. *)
Definition unknownLocation : GeocodingResult :=
  {| coordinates := fallbackCoordinates.default;
     formattedAddress := JStr "Unknown Location" |}.

Definition regionalFallback (cleanAddress : string) : GeocodingResult :=
  {| coordinates := fallbackCoords (toLowerCase cleanAddress);
     formattedAddress := JStr cleanAddress |}.

Definition defaultFallback (address : string) : GeocodingResult :=
  {| coordinates := fallbackCoordinates.default;
     formattedAddress := JStr address |}.

(** The part of the [try] block that follows [response.json()], as a
    function of the parsed body. *)
Definition decode (cleanAddress : string) (data : JSON)
  : Completion GeocodingResult :=
  andThen (hasCandidate data) (fun found =>
  if found then
    andThen (get (Some data) K0) (fun first =>
    andThen (get first Klat) (fun latField =>
    andThen (parseFloat latField) (fun lat =>
    andThen (get first Klon) (fun lonField =>
    andThen (parseFloat lonField) (fun lng =>
    if invalidCoordinates lat lng then Throw InvalidCoordinates
    else
      andThen (get first Kdisplay_name) (fun name =>
      Return {| coordinates := {| lat := lat; lng := lng |};
                formattedAddress := orElse name (JStr cleanAddress) |}))))))
  else Throw AddressNotFound).

(** The whole [try] block, as a function of the provider's answer. *)
Definition attempt (cleanAddress : string) (answer : FetchOutcome)
  : Completion GeocodingResult :=
  match answer with
  | Rejected => Throw NetworkError
  | Responded r =>
      if negb (ok r) then Throw (RequestFailed (status r))
      else match body r with
           | Some data => decode cleanAddress data
           | None => Throw SyntaxError
           end
  end.

(** The provider's answer to the request a call makes in state [st]. *)
Definition answerTo (provider : Provider) (st : State) (address : string)
  : FetchOutcome :=
  provider (List.length (requests st)) (trim address).

Definition cached (st : State) (address : string) (r : GeocodingResult)
  : State :=
  {| geocodingCache := <[address := r]> (geocodingCache st);
     requests := requests st;
     console := console st |}.

Definition requested (st : State) (q : string) : State :=
  {| geocodingCache := geocodingCache st;
     requests := (requests st ++ [q])%list;
     console := console st |}.

Definition logged (st : State) (entry : LogEntry) : State :=
  {| geocodingCache := geocodingCache st;
     requests := requests st;
     console := (console st ++ [entry])%list |}.

(** One call, path by path. *)
Definition geocodeAddressPaths (provider : Provider) (address : string)
    (st : State) : Completion GeocodingResult * State :=
  match geocodingCache st !! address with
  | Some hit => (Return hit, st)
  | None =>
      if nonEmpty (trim address) then
        match attempt (trim address) (answerTo provider st address) with
        | Return r => (Return r, cached (requested st (trim address)) address r)
        | Throw e =>
            (Return (regionalFallback (trim address)),
             cached (logged (requested st (trim address))
                            (GeocodingError (trim address) e))
                    address (regionalFallback (trim address)))
        end
      else (Return unknownLocation, cached st address unknownLocation)
  end.

(** ** Vocabulary of the statements *)

(** How many times the [catch] block of [geocodeMultipleAddresses] ran:
    each run leaves one 'Failed to geocode address' line on the console. *)
Fixpoint batchFailures (log : list LogEntry) : nat :=
  match log with
  | FailedToGeocode _ _ :: rest => S (batchFailures rest)
  | GeocodingError _ _ :: rest => batchFailures rest
  | [] => O
  end.

(** Every address of the list is a key of the cache, bound to the result
    at the same position. *)
Definition Warm (st : State) (addresses : list string)
    (results : list GeocodingResult) : Prop :=
  Forall2 (fun a r => geocodingCache st !! a = Some r) addresses results.

(** [s] occurs in [t] as a substring. *)
Definition Substring (s t : string) : Prop :=
  exists before after, t = before ++ s ++ after.

(** The Coordinate invariant. *)
Definition inRange (c : Coordinates) : bool :=
  le (neg (ofZ 90)) (lat c) && le (lat c) (ofZ 90)
  && le (neg (ofZ 180)) (lng c) && le (lng c) (ofZ 180).

Definition cacheInRange (st : State) : Prop :=
  forall address r,
    geocodingCache st !! address = Some r -> inRange (coordinates r) = true.

(** A sequential run of the loop over [addresses] from the state [st]:
    the resolver is called on each address in turn, in the state the
    previous address left; an address whose resolution throws gets the
    default fallback and one console line. *)
Inductive Batch (resolve : string -> M GeocodingResult)
  : State -> list string -> list GeocodingResult -> State -> Prop :=
  | Batch_done st : Batch resolve st [] [] st
  | Batch_resolved st address rest r st1 results st2 :
      resolve address st = (Return r, st1) ->
      Batch resolve st1 rest results st2 ->
      Batch resolve st (address :: rest) (r :: results) st2
  | Batch_caught st address rest e st1 results st2 :
      resolve address st = (Throw e, st1) ->
      Batch resolve (logged st1 (FailedToGeocode address e)) rest results st2 ->
      Batch resolve st (address :: rest) (defaultFallback address :: results) st2.

(** The states the module can be in: the initial one, and those left by
    a call of either operation, whatever the provider answers. *)
Inductive Reachable : State -> Prop :=
  | Reachable_initial : Reachable initial
  | Reachable_one provider address st :
      Reachable st -> Reachable (snd (geocodeAddress provider address st))
  | Reachable_many provider addresses st :
      Reachable st ->
      Reachable (snd (geocodeMultipleAddresses provider addresses st)).

(** The answers the service classifies as a failed lookup. *)
Inductive LookupFailure : FetchOutcome -> Prop :=
  | Failure_network : LookupFailure Rejected
  | Failure_status r : ok r = false -> LookupFailure (Responded r)
  | Failure_malformed r : body r = None -> LookupFailure (Responded r)
  | Failure_no_candidate r :
      body r = Some (JArr []) -> LookupFailure (Responded r)
  | Failure_not_a_number r props others latField lonField la lo :
      body r = Some (JArr (JObj props :: others)) ->
      ownProperty "lat" props = Some latField ->
      ownProperty "lon" props = Some lonField ->
      parseFloat (Some latField) = Return la ->
      parseFloat (Some lonField) = Return lo ->
      isNaN la || isNaN lo = true ->
      LookupFailure (Responded r)
  | Failure_out_of_range r props others latField lonField la lo :
      body r = Some (JArr (JObj props :: others)) ->
      ownProperty "lat" props = Some latField ->
      ownProperty "lon" props = Some lonField ->
      parseFloat (Some latField) = Return la ->
      parseFloat (Some lonField) = Return lo ->
      inRange {| lat := la; lng := lo |} = false ->
      LookupFailure (Responded r).

(** ** The caller: [geocodeLocations] of the ShipmentMap component *)

(** Modelled from the spec: the [Shipment] interface of shipmentService is
    not among the sources; the three fields the component reads are given
    the types the same fields have in [EmailData]. *)
Module Shipment.

Record t := {
  origin : string;
  destination : string;
  currentLocation : option string
}.

End Shipment.

Module ShipmentMap.

(** The [geocodedLocations] piece of state. *)
Record Locations := {
  origin : option GeocodingResult;
  current : option GeocodingResult;
  destination : option GeocodingResult
}.

(** The lines the component writes to the console. *)
Inductive Line : Type :=
  | LogAddresses (addresses : list string)
  | LogResults (results : list GeocodingResult)
  | LogLocationMap (locationMap : Locations)
  | ErrorGeocoding (err : Error).

(** The state of the component, with the console lines it wrote. *)
Record Component := {
  geocodedLocations : Locations;
  isLoading : bool;
  error : option string;
  lines : list Line
}.

(** The state a freshly mounted component starts from. *)
Definition mounted : Component :=
  {| geocodedLocations := {| origin := None; current := None;
                             destination := None |};
     isLoading := true;
     error := None;
     lines := [] |}.

Definition setIsLoading (b : bool) (c : Component) : Component :=
  {| geocodedLocations := geocodedLocations c; isLoading := b;
     error := error c; lines := lines c |}.

Definition setError (e : option string) (c : Component) : Component :=
  {| geocodedLocations := geocodedLocations c; isLoading := isLoading c;
     error := e; lines := lines c |}.

Definition setGeocodedLocations (l : Locations) (c : Component) : Component :=
  {| geocodedLocations := l; isLoading := isLoading c;
     error := error c; lines := lines c |}.

Definition consoleLine (l : Line) (c : Component) : Component :=
  {| geocodedLocations := geocodedLocations c; isLoading := isLoading c;
     error := error c; lines := (lines c ++ [l])%list |}.

(** [shipment.currentLocation && shipment.currentLocation !==
    shipment.origin] *)
Definition hasCurrent (shipment : Shipment.t) : bool :=
  match Shipment.currentLocation shipment with
  | Some location =>
      nonEmpty location && negb (String.eqb location (Shipment.origin shipment))
  | None => false
  end.

(** The array [addresses]. *)
Definition addressesOf (shipment : Shipment.t) : list string :=
  let addresses := [Shipment.origin shipment; Shipment.destination shipment] in
  match Shipment.currentLocation shipment with
  | Some location => if hasCurrent shipment then push addresses location
                     else addresses
  | None => addresses
  end.

(** The object [locationMap]; [results[i] || null] is the [i]-th result
    when there is one (a result is an object, hence truthy). *)
Definition locationMapOf (shipment : Shipment.t)
    (results : list GeocodingResult) : Locations :=
  {| origin := nth_error results 0;
     destination := nth_error results 1;
     current := if hasCurrent shipment then nth_error results 2 else None |}.

(** One run of [geocodeLocations], on the component and the module. *)
Definition geocodeLocations (provider : Provider) (shipment : Shipment.t)
    (c : Component) (st : State) : Component * State :=
  let c := setError None (setIsLoading true c) in
  let addresses := addressesOf shipment in
  let c := consoleLine (LogAddresses addresses) c in
  match geocodeMultipleAddresses provider addresses st with
  | (Return results, st') =>
      let c := consoleLine (LogResults results) c in
      let locationMap := locationMapOf shipment results in
      let c := consoleLine (LogLocationMap locationMap) c in
      let c := setGeocodedLocations locationMap c in
      (setIsLoading false c, st')
  | (Throw err, st') =>
      let c := setError (Some "Failed to load map locations. Please try again.")
                        c in
      let c := consoleLine (ErrorGeocoding err) c in
      (setIsLoading false c, st')
  end.

End ShipmentMap.

(** ** The email service *)

(** [String.prototype.toUpperCase] on one code unit: a..z, the Latin-1
    small letters U+00E0..U+00FE (U+00F7, the division sign, excepted),
    and the sharp s, whose capital is two letters. The capitals of U+00B5
    and U+00FF lie above U+00FF; these two code units are left as they
    are. *)
Definition upperChar (c : ascii) : string :=
  let n := code c in
  if n =? 223 then "SS"
  else if ((97 <=? n) && (n <=? 122))
          || ((224 <=? n) && (n <=? 254) && negb (n =? 247))
  then String (ascii_of_N (Z.to_N (n - 32))) EmptyString
  else String c EmptyString.

Fixpoint toUpperCase (s : string) : string :=
  match s with
  | String c s' => upperChar c ++ toUpperCase s'
  | EmptyString => EmptyString
  end.

(** [a || b] on an optional string. *)
Definition orString (a : option string) (b : string) : string :=
  match a with
  | Some s => if nonEmpty s then s else b
  | None => b
  end.

Module Package.

Record t := {
  pieceType : string;
  quantity : Number;
  weight : Number;
  length : option Number;
  width : option Number;
  height : option Number;
  description : option string
}.

End Package.

Module EmailData.

Record t := {
  trackingNumber : string;
  shipperName : string;
  shipperEmail : string;
  receiverName : string;
  receiverEmail : string;
  origin : string;
  destination : string;
  expectedDeliveryDate : string;
  status : option string;
  currentLocation : option string;
  packages : option (list Package.t)
}.

End EmailData.

Module ContactFormData.

Record t := {
  name : string;
  email : string;
  subject : string;
  message : string
}.

End ContactFormData.

Module Email.

(** What [emailjs.send] is called with. *)
Record SendRequest := {
  serviceID : string;
  templateID : string;
  templateParams : list (string * string);
  userID : string
}.

(** What [emailjs.send] resolves with. *)
Record EmailJSResponseStatus := { status : Z; text : string }.

(** The mail provider answers the [n]-th call of [emailjs.send] with a
    response, or rejects it ([None]). *)
Definition Mailer := nat -> SendRequest -> option EmailJSResponseStatus.

(** What a call can throw: an [Error] with its message, or the value
    [emailjs.send] rejected with. *)
Inductive Thrown : Type :=
  | ErrorMessage (message : string)
  | SendRejected.

Inductive Outcome (A : Type) : Type :=
  | Resolved (a : A)
  | Failed (e : Thrown).
Arguments Resolved {A} a.
Arguments Failed {A} e.

(** A computation over the log of the calls made to [emailjs.send]. *)
Definition Mail (A : Type) : Type :=
  list SendRequest -> Outcome A * list SendRequest.

Definition ret {A} (a : A) : Mail A := fun sent => (Resolved a, sent).

Definition throw {A} (e : Thrown) : Mail A := fun sent => (Failed e, sent).

Definition bind {A B} (m : Mail A) (k : A -> Mail B) : Mail B :=
  fun sent =>
    match m sent with
    | (Resolved a, sent') => k a sent'
    | (Failed e, sent') => (Failed e, sent')
    end.

Definition tryCatch {A} (body : Mail A) (handler : Thrown -> Mail A)
  : Mail A :=
  fun sent =>
    match body sent with
    | (Resolved a, sent') => (Resolved a, sent')
    | (Failed e, sent') => handler e sent'
    end.

(** [await Promise.all([first, second])] of two calls already made: both
    run, the first one first; the result is a rejection as soon as one
    of them rejects. *)
Definition promiseAll {A B} (first : Mail A) (second : Mail B)
  : Mail (A * B) :=
  fun sent =>
    let '(r1, sent1) := first sent in
    let '(r2, sent2) := second sent1 in
    match r1, r2 with
    | Resolved a, Resolved b => (Resolved (a, b), sent2)
    | Failed e, _ => (Failed e, sent2)
    | _, Failed e => (Failed e, sent2)
    end.

Declare Scope mail_scope.
Delimit Scope mail_scope with mail.
Notation "x <- m ;; k" := (bind m (fun x => k))
  (at level 100, m at next level, right associativity) : mail_scope.
Notation "m ;;; k" := (bind m (fun _ => k))
  (at level 100, right associativity) : mail_scope.
Local Open Scope mail_scope.

Definition DOMAIN : string := "https://tracking-blond.vercel.app".

Section Service.

(** [process.env], and the mail provider. *)
Variable env : gmap string string.
Variable emailjs : Mailer.

Definition isTest : bool :=
  match env !! "NODE_ENV" with
  | Some v => String.eqb v "test"
  | None => false
  end.

(** [!process.env[varName]] is false: the variable is set and not empty. *)
Definition isSet (varName : string) : bool :=
  match env !! varName with
  | Some v => nonEmpty v
  | None => false
  end.

(** [process.env[varName] || ''] *)
Definition envOrEmpty (varName : string) : string :=
  orString (env !! varName) "".

Definition requiredVars (templateType : string) : list string :=
  let prefix := if isTest then "TEST_" else "REACT_APP_EMAILJS" in
  [prefix ++ "_SERVICE_ID";
   prefix ++ "_" ++ toUpperCase templateType ++ "_TEMPLATE_ID";
   prefix ++ "_USER_ID"].

Definition checkEmailConfig (templateType : string) : Mail unit :=
  let missingVars :=
    List.filter (fun varName => negb (isSet varName))
                (requiredVars templateType) in
  if (0 <? Z.of_nat (List.length missingVars)) then
    throw (ErrorMessage ("Missing required environment variables: "
                         ++ String.concat ", " missingVars))
  else ret tt.

(** [await emailjs.send(...)] *)
Definition send (serviceID templateID : string)
    (templateParams : list (string * string)) (userID : string)
  : Mail EmailJSResponseStatus :=
  fun sent =>
    let request := {| serviceID := serviceID; templateID := templateID;
                      templateParams := templateParams; userID := userID |} in
    (match emailjs (List.length sent) request with
     | Some response => Resolved response
     | None => Failed SendRejected
     end,
     (sent ++ [request])%list).

Definition sendShipperEmail (data : EmailData.t) : Mail EmailJSResponseStatus :=
  tryCatch
    (checkEmailConfig "SHIPPER" ;;;
     let prefix := if isTest then "TEST_" else "REACT_APP_EMAILJS" in
     let templateParams :=
       [("to_name", EmailData.shipperName data);
        ("tracking_number", EmailData.trackingNumber data);
        ("status", orString (EmailData.status data) "Pending");
        ("origin", EmailData.origin data);
        ("destination", EmailData.destination data);
        ("expected_delivery_date", EmailData.expectedDeliveryDate data);
        ("current_location",
         orString (EmailData.currentLocation data) (EmailData.origin data));
        ("tracking_url",
         DOMAIN ++ "/track/" ++ EmailData.trackingNumber data);
        ("to_email", EmailData.shipperEmail data)] in
     response <- send (envOrEmpty (prefix ++ "_SERVICE_ID"))
                      (envOrEmpty (prefix ++ "_SHIPPER_TEMPLATE_ID"))
                      templateParams
                      (envOrEmpty (prefix ++ "_USER_ID")) ;;
     if negb (status response =? 200)
     then throw (ErrorMessage "Failed to send shipper email")
     else ret response)
    (fun _ => throw (ErrorMessage "Failed to send shipper email")).

Definition sendReceiverEmail (data : EmailData.t) : Mail EmailJSResponseStatus :=
  tryCatch
    (checkEmailConfig "RECEIVER" ;;;
     let prefix := if isTest then "TEST_" else "REACT_APP_EMAILJS" in
     let templateParams :=
       [("to_name", EmailData.receiverName data);
        ("tracking_number", EmailData.trackingNumber data);
        ("status", orString (EmailData.status data) "Pending");
        ("origin", EmailData.origin data);
        ("destination", EmailData.destination data);
        ("expected_delivery_date", EmailData.expectedDeliveryDate data);
        ("current_location",
         orString (EmailData.currentLocation data) (EmailData.origin data));
        ("tracking_url",
         DOMAIN ++ "/track/" ++ EmailData.trackingNumber data);
        ("to_email", EmailData.receiverEmail data)] in
     response <- send (envOrEmpty (prefix ++ "_SERVICE_ID"))
                      (envOrEmpty (prefix ++ "_RECEIVER_TEMPLATE_ID"))
                      templateParams
                      (envOrEmpty (prefix ++ "_USER_ID")) ;;
     if negb (status response =? 200)
     then throw (ErrorMessage "Failed to send receiver email")
     else ret response)
    (fun _ => throw (ErrorMessage "Failed to send receiver email")).

Definition sendContactFormEmail (data : ContactFormData.t)
  : Mail EmailJSResponseStatus :=
  tryCatch
    (let secondaryPrefix :=
       if isTest then "TEST_" else "REACT_APP_EMAILJS_SECONDARY" in
     let templateParams :=
       [("from_name", ContactFormData.name data);
        ("from_email", ContactFormData.email data);
        ("subject", ContactFormData.subject data);
        ("message", ContactFormData.message data);
        ("reply_to", ContactFormData.email data)] in
     response <- send (envOrEmpty (secondaryPrefix ++ "_SERVICE_ID"))
                      (envOrEmpty (secondaryPrefix ++ "_CONTACT_TEMPLATE_ID"))
                      templateParams
                      (envOrEmpty (secondaryPrefix ++ "_USER_ID")) ;;
     if negb (status response =? 200)
     then throw (ErrorMessage "Failed to send contact form email")
     else ret response)
    (fun _ => throw (ErrorMessage "Failed to send contact form email")).

(** [today] stands for [new Date().toISOString().split('T')[0]]. *)
Definition sendTestEmails (today : string) : Mail bool :=
  tryCatch
    (let testData :=
       {| EmailData.trackingNumber := "TEST123456";
          EmailData.shipperName := "Test Shipper";
          EmailData.shipperEmail := "test@example.com";
          EmailData.receiverName := "Test Receiver";
          EmailData.receiverEmail := "test@example.com";
          EmailData.origin := "Test Origin";
          EmailData.destination := "Test Destination";
          EmailData.expectedDeliveryDate := today;
          EmailData.status := Some "Test Status";
          EmailData.currentLocation := Some "Test Location";
          EmailData.packages := None |} in
     promiseAll (sendShipperEmail testData) (sendReceiverEmail testData) ;;;
     ret true)
    (fun _ => throw (ErrorMessage "Failed to send test emails")).

End Service.

End Email.

(** ** Vocabulary of the further statements *)

(** The queries a batch sends: one for each address that is not a key of
    the cache (the keys being [known]) when its turn comes and is not
    empty once trimmed. *)
Fixpoint newQueries (known : gset string) (addresses : list string)
  : list string :=
  match addresses with
  | [] => []
  | address :: rest =>
      if decide (address ∈ known) then newQueries known rest
      else ((if nonEmpty (trim address) then [trim address] else [])
            ++ newQueries ({[address]} ∪ known) rest)%list
  end.

(** [params[key]] on the parameters of a mail. *)
Fixpoint parameter (key : string) (params : list (string * string))
  : option string :=
  match params with
  | (k, v) :: rest => if String.eqb key k then Some v else parameter key rest
  | [] => None
  end.

Definition cacheTruthy (st : State) : Prop :=
  forall address r,
    geocodingCache st !! address = Some r ->
    truthy (formattedAddress r) = true.

(** ** Proofs *)

Lemma geocodeAddress_paths provider address st :
  geocodeAddress provider address st = geocodeAddressPaths provider address st.
Proof.
  unfold geocodeAddress, geocodeAddressPaths, bind at 1, cacheGet.
  destruct (geocodingCache st !! address) as [hit|]; [reflexivity|].
  destruct (nonEmpty (trim address)); cbn [negb]; [|reflexivity].
  unfold tryCatch, attempt, answerTo, bind at 1, fetch.
  destruct (provider _ _) as [|r]; [reflexivity|].
  destruct (negb (ok r)); [reflexivity|].
  unfold bind at 1, json. destruct (body r) as [data|]; [|reflexivity].
  unfold ret at 1, decode.
  repeat (unfold bind at 1, lift at 1;
          match goal with
          | |- context [match ?c with Return _ => _ | Throw _ => _ end] =>
              destruct c as [?|?]; cbn [andThen]; try reflexivity
          end;
          repeat match goal with
          | |- context [if ?b then _ else _] => destruct b; try reflexivity
          end).
Qed.

(** Replaces a call by its path-by-path description. *)
Ltac by_paths :=
  rewrite geocodeAddress_paths; unfold geocodeAddressPaths.

(** *** Numbers *)

Lemma SFcompare_swap (x y : Number) :
  SFcompare y x = option_map CompOpp (SFcompare x y).
Proof.
  destruct x as [sx|sx| |sx mx ex], y as [sy|sy| |sy my ey];
    try destruct sx; try destruct sy; try reflexivity;
    cbn [SFcompare option_map]; f_equal;
    rewrite (Z.compare_antisym ex ey);
    destruct (ex ?= ey); cbn [CompOpp]; try reflexivity;
    rewrite (Pos.compare_cont_antisym mx my Eq); cbn [CompOpp];
    try reflexivity; destruct (Pos.compare_cont Eq my mx); reflexivity.
Qed.

Lemma not_lt_le (x y : Number) :
  isNaN x = false -> isNaN y = false -> lt x y = false -> le y x = true.
Proof.
  unfold lt, le, SFltb, SFleb. rewrite (SFcompare_swap x y).
  destruct x as [sx|sx| |sx mx ex], y as [sy|sy| |sy my ey];
    try discriminate; intros _ _;
    destruct (SFcompare _ _) as [[| |]|] eqn:E;
    cbn [option_map CompOpp]; try reflexivity; try discriminate;
    cbn in E; repeat match type of E with
                     | context [if ?b then _ else _] => destruct b
                     end; discriminate.
Qed.

Lemma le_not_lt (x y : Number) : le y x = true -> lt x y = false.
Proof.
  unfold lt, le, SFltb, SFleb. rewrite (SFcompare_swap x y).
  destruct (SFcompare x y) as [[| |]|]; cbn [option_map CompOpp];
    congruence.
Qed.

(** The test of line 50 rejects exactly the pairs outside the range. *)
Lemma invalidCoordinates_inRange (la lo : Number) :
  invalidCoordinates la lo = negb (inRange {| lat := la; lng := lo |}).
Proof.
  unfold invalidCoordinates, inRange, gt. cbn [lat lng].
  destruct (isNaN la) eqn:Hla.
  { destruct la; try discriminate. reflexivity. }
  destruct (isNaN lo) eqn:Hlo.
  { destruct lo; try discriminate. cbn [orb].
    replace (le (neg (ofZ 180)) S754_nan) with false by reflexivity.
    rewrite andb_false_r. reflexivity. }
  cbn [orb].
  assert (Hflip : forall x c, isNaN x = false -> isNaN c = false ->
                              le c x = negb (lt x c)).
  { intros x c Hx Hc. destruct (lt x c) eqn:E.
    - destruct (le c x) eqn:E'; [|reflexivity].
      apply le_not_lt in E'. congruence.
    - apply not_lt_le; assumption. }
  rewrite (Hflip la (neg (ofZ 90))), (Hflip lo (neg (ofZ 180)))
    by (assumption || reflexivity).
  rewrite (Hflip (ofZ 90) la), (Hflip (ofZ 180) lo)
    by (assumption || reflexivity).
  unfold lt.
  destruct (SFltb la _), (SFltb (ofZ 90) la), (SFltb lo _),
    (SFltb (ofZ 180) lo); reflexivity.
Qed.

(** *** Strings *)

Lemma code_inj (a b : ascii) : code a = code b -> a = b.
Proof.
  unfold code. intros H. apply N2Z.inj in H.
  rewrite <- (ascii_N_embedding a), <- (ascii_N_embedding b), H.
  reflexivity.
Qed.

Lemma startsWith_prefix (s p : string) :
  startsWith s p = true <-> exists rest, s = p ++ rest.
Proof.
  revert s. induction p as [|a p IH]; intros s; cbn.
  - split; [exists s; reflexivity|destruct s; reflexivity].
  - destruct s as [|b s]; cbn.
    + split; [discriminate|intros [rest H]; discriminate].
    + rewrite andb_true_iff, Z.eqb_eq, IH. split.
      * intros [Hc [rest ->]]. apply code_inj in Hc. subst.
        exists rest. reflexivity.
      * intros [rest H]. injection H as -> ->. split; [reflexivity|].
        exists rest. reflexivity.
Qed.

(** [includes] decides the substring relation. *)
Lemma includes_Substring (s sub : string) :
  includes s sub = true <-> Substring sub s.
Proof.
  unfold Substring. split.
  - induction s as [|c s IH]; cbn [includes]; rewrite orb_true_iff;
      intros [H|H]; try discriminate.
    + apply startsWith_prefix in H as [rest ->]. exists "", rest. reflexivity.
    + apply startsWith_prefix in H as [rest ->]. exists "", rest. reflexivity.
    + destruct (IH H) as (before & after & ->).
      exists (String c before), after. reflexivity.
  - intros (before & after & ->).
    induction before as [|c before IH].
    + assert (H : startsWith (sub ++ after) sub = true)
        by (apply startsWith_prefix; exists after; reflexivity).
      change ("" ++ (sub ++ after)) with (sub ++ after). revert H.
      destruct (sub ++ after); cbn [includes]; intros ->; reflexivity.
    + change (String c before ++ (sub ++ after))
        with (String c (before ++ (sub ++ after))).
      cbn [includes]. rewrite IH. apply orb_true_r.
Qed.

(** *** The [try] block *)

Lemma hasCandidate_first props others :
  hasCandidate (JArr (JObj props :: others))
  = Return (truthyOpt (ownProperty "lat" props)
            && truthyOpt (ownProperty "lon" props)).
Proof.
  unfold hasCandidate. cbn.
  destruct (truthyOpt (ownProperty "lat" props)); reflexivity.
Qed.

(** The [try] block on an answer whose first candidate is an object. *)
Lemma decode_first cleanAddress props others :
  decode cleanAddress (JArr (JObj props :: others))
  = if truthyOpt (ownProperty "lat" props)
       && truthyOpt (ownProperty "lon" props)
    then
      andThen (parseFloat (ownProperty "lat" props)) (fun la =>
      andThen (parseFloat (ownProperty "lon" props)) (fun lo =>
      if invalidCoordinates la lo then Throw InvalidCoordinates
      else Return
             {| coordinates := {| lat := la; lng := lo |};
                formattedAddress :=
                  orElse (ownProperty "display_name" props)
                         (JStr cleanAddress) |}))
    else Throw AddressNotFound.
Proof.
  unfold decode. rewrite hasCandidate_first. cbn [andThen].
  destruct (truthyOpt _ && truthyOpt _); reflexivity.
Qed.

Lemma decode_inRange cleanAddress data r :
  decode cleanAddress data = Return r -> inRange (coordinates r) = true.
Proof.
  unfold decode.
  destruct (hasCandidate data) as [[|]|]; cbn [andThen]; try discriminate.
  destruct (get (Some data) K0) as [first|]; cbn [andThen]; try discriminate.
  destruct (get first Klat) as [latField|]; cbn [andThen]; try discriminate.
  destruct (parseFloat latField) as [la|]; cbn [andThen]; try discriminate.
  destruct (get first Klon) as [lonField|]; cbn [andThen]; try discriminate.
  destruct (parseFloat lonField) as [lo|]; cbn [andThen]; try discriminate.
  rewrite invalidCoordinates_inRange.
  destruct (inRange _) eqn:Hr; cbn [negb]; try discriminate.
  destruct (get first Kdisplay_name); cbn [andThen]; try discriminate.
  intros [= <-]. exact Hr.
Qed.

Lemma attempt_inRange cleanAddress answer r :
  attempt cleanAddress answer = Return r -> inRange (coordinates r) = true.
Proof.
  unfold attempt. destruct answer as [|resp]; try discriminate.
  destruct (negb (ok resp)); try discriminate.
  destruct (body resp); try discriminate. apply decode_inRange.
Qed.

(** Every answer classified as a failure makes the [try] block throw. *)
Lemma LookupFailure_throws cleanAddress answer :
  LookupFailure answer -> exists e, attempt cleanAddress answer = Throw e.
Proof.
  assert (Hbad : forall props others latField lonField la lo,
            ownProperty "lat" props = Some latField ->
            ownProperty "lon" props = Some lonField ->
            parseFloat (Some latField) = Return la ->
            parseFloat (Some lonField) = Return lo ->
            invalidCoordinates la lo = true ->
            exists e, decode cleanAddress (JArr (JObj props :: others))
                      = Throw e).
  { intros props others latField lonField la lo Hlat Hlon Hla Hlo Hbad.
    rewrite decode_first, Hlat, Hlon, Hla, Hlo. cbn [andThen].
    rewrite Hbad. destruct (_ && _); eexists; reflexivity. }
  intros [ |r Hok|r Hbody|r Hbody
          |r props others latField lonField la lo Hbody Hlat Hlon Hla Hlo Hnan
          |r props others latField lonField la lo Hbody Hlat Hlon Hla Hlo Hout];
    unfold attempt; try (eexists; reflexivity).
  - rewrite Hok. eexists; reflexivity.
  - destruct (negb (ok r)); [eexists; reflexivity|].
    rewrite Hbody. eexists; reflexivity.
  - destruct (negb (ok r)); [eexists; reflexivity|].
    rewrite Hbody. eexists; reflexivity.
  - destruct (negb (ok r)); [eexists; reflexivity|].
    rewrite Hbody. eapply Hbad; try eassumption.
    unfold invalidCoordinates.
    apply orb_true_iff in Hnan as [-> | ->]; [reflexivity|].
    destruct (isNaN la); reflexivity.
  - destruct (negb (ok r)); [eexists; reflexivity|].
    rewrite Hbody. eapply Hbad; try eassumption.
    rewrite invalidCoordinates_inRange, Hout. reflexivity.
Qed.

(** *** The console *)

Lemma batchFailures_app log1 log2 :
  batchFailures (log1 ++ log2) = (batchFailures log1 + batchFailures log2)%nat.
Proof.
  induction log1 as [|[? ?|? ?] log1 IH]; cbn; [reflexivity|assumption|].
  rewrite IH. reflexivity.
Qed.

(** *** Coordinates in range *)

Lemma fallbackCoords_inRange lowerAddress :
  inRange (fallbackCoords lowerAddress) = true.
Proof.
  unfold fallbackCoords.
  destruct (_ || _); [vm_compute; reflexivity|].
  destruct (_ || _); vm_compute; reflexivity.
Qed.

Lemma cacheInRange_cached st address r :
  cacheInRange st -> inRange (coordinates r) = true ->
  cacheInRange (cached st address r).
Proof.
  intros Hst Hr k v. unfold cached. cbn [geocodingCache].
  destruct (decide (address = k)) as [->|Hne].
  - rewrite lookup_insert_eq. intros [= <-]. exact Hr.
  - rewrite lookup_insert_ne by assumption. apply Hst.
Qed.

Lemma unknownLocation_inRange : inRange (coordinates unknownLocation) = true.
Proof. vm_compute. reflexivity. Qed.

Lemma regionalFallback_inRange cleanAddress :
  inRange (coordinates (regionalFallback cleanAddress)) = true.
Proof. apply fallbackCoords_inRange. Qed.

Create HintDb geocode.
#[local] Hint Resolve attempt_inRange unknownLocation_inRange
  regionalFallback_inRange cacheInRange_cached : geocode.

(** *** The loop, for any resolver *)

Lemma forEachAddress_cons resolve address rest results st :
  forEachAddress resolve (address :: rest) results st =
  match resolve address st with
  | (Return r, st1) => forEachAddress resolve rest (push results r) st1
  | (Throw e, st1) =>
      forEachAddress resolve rest (push results (defaultFallback address))
                     (logged st1 (FailedToGeocode address e))
  end.
Proof.
  cbn [forEachAddress]. unfold bind at 1, tryCatch, bind at 1.
  destruct (resolve address st) as [[r|e] st1]; reflexivity.
Qed.

(** The loop over any resolver runs to the end: it returns the results it
    started with, followed by one result per address. *)
Lemma forEachAddress_batch resolve addresses :
  forall results st,
  exists more st',
    forEachAddress resolve addresses results st
      = (Return (results ++ more)%list, st')
    /\ Batch resolve st addresses more st'.
Proof.
  induction addresses as [|address rest IH]; intros results st.
  - exists [], st. cbn. rewrite app_nil_r. split; [reflexivity|constructor].
  - rewrite forEachAddress_cons.
    destruct (resolve address st) as [[r|e] st1] eqn:Hr.
    + destruct (IH (push results r) st1) as (more & st' & Hrun & Hb).
      exists (r :: more), st'. split.
      * rewrite Hrun. unfold push. rewrite <- app_assoc. reflexivity.
      * econstructor; eassumption.
    + destruct (IH (push results (defaultFallback address))
                   (logged st1 (FailedToGeocode address e)))
        as (more & st' & Hrun & Hb).
      exists (defaultFallback address :: more), st'. split.
      * rewrite Hrun. unfold push. rewrite <- app_assoc. reflexivity.
      * eapply Batch_caught; eassumption.
Qed.

Lemma Batch_length resolve st addresses results st' :
  Batch resolve st addresses results st' ->
  List.length results = List.length addresses.
Proof. induction 1; cbn; congruence. Qed.

(** *** Calls to one provider *)

Section Calls.

Variable provider : Provider.

Lemma geocodeAddress_hit address st hit :
  geocodingCache st !! address = Some hit ->
  geocodeAddress provider address st = (Return hit, st).
Proof.
  intros H. by_paths.
  rewrite H. reflexivity.
Qed.

(** A call returns, and what it returns is then the cache's entry for the
    address; every earlier entry is kept, the console gets no line of the
    batch operation. *)
Lemma geocodeAddress_effect address st :
  exists r st',
    geocodeAddress provider address st = (Return r, st')
    /\ geocodingCache st' !! address = Some r
    /\ (forall k v, geocodingCache st !! k = Some v ->
                    geocodingCache st' !! k = Some v)
    /\ batchFailures (console st') = batchFailures (console st).
Proof.
  by_paths.
  destruct (geocodingCache st !! address) as [hit|] eqn:Hc.
  { exists hit, st. auto. }
  assert (Hkeep : forall r k v,
             geocodingCache st !! k = Some v ->
             <[address := r]> (geocodingCache st) !! k = Some v).
  { intros r k v Hk. destruct (decide (address = k)) as [->|Hne].
    - congruence.
    - rewrite lookup_insert_ne; assumption. }
  destruct (nonEmpty (trim address)).
  - destruct (attempt _ _) as [r|e]; eexists _, _;
      (split; [reflexivity|]); cbn; repeat split;
      try apply lookup_insert_eq; try apply Hkeep.
    rewrite batchFailures_app. cbn. lia.
  - eexists _, _; (split; [reflexivity|]); cbn; repeat split;
      try apply lookup_insert_eq; try apply Hkeep.
Qed.

(** With [geocodeAddress] as the resolver, the loop never enters its
    [catch] block and leaves every address cached with its result. *)
Lemma Batch_geocodeAddress st addresses results st' :
  Batch (geocodeAddress provider) st addresses results st' ->
  Warm st' addresses results
  /\ (forall k v, geocodingCache st !! k = Some v ->
                  geocodingCache st' !! k = Some v)
  /\ batchFailures (console st') = batchFailures (console st).
Proof.
  induction 1 as [st|st address rest r st1 results st2 Hr Hb IH
                    |st address rest e st1 results st2 Hr Hb IH].
  - repeat split; [constructor|auto].
  - destruct (geocodeAddress_effect address st)
      as (r' & st1' & Hrun & Hhit & Hkeep & Hlog).
    rewrite Hrun in Hr. injection Hr as -> ->.
    destruct IH as (Hwarm & Hkeep' & Hlog'). repeat split.
    + constructor; [apply Hkeep', Hhit|exact Hwarm].
    + intros k v Hk. apply Hkeep', Hkeep, Hk.
    + congruence.
  - destruct (geocodeAddress_effect address st)
      as (r' & st1' & Hrun & _).
    rewrite Hrun in Hr. discriminate.
Qed.

(** On a warm cache the loop returns the cached results and leaves the
    state as it found it. *)
Lemma forEachAddress_warm addresses :
  forall results st more,
    Warm st addresses more ->
    forEachAddress (geocodeAddress provider) addresses results st
      = (Return (results ++ more)%list, st).
Proof.
  induction addresses as [|address rest IH]; intros results st more Hw;
    inversion Hw as [|a r ? more' Hhit Hrest]; subst.
  - cbn. rewrite app_nil_r. reflexivity.
  - rewrite forEachAddress_cons, (geocodeAddress_hit _ _ _ Hhit).
    rewrite (IH _ _ _ Hrest). unfold push. rewrite <- app_assoc. reflexivity.
Qed.

Lemma geocodeAddress_inRange address st c st' :
  cacheInRange st ->
  geocodeAddress provider address st = (c, st') ->
  (exists r, c = Return r /\ inRange (coordinates r) = true)
  /\ cacheInRange st'.
Proof.
  intros Hst. by_paths.
  destruct (geocodingCache st !! address) as [hit|] eqn:Hc;
    [|destruct (nonEmpty (trim address));
      [destruct (attempt _ _) as [r|e] eqn:Ha|]];
    intros [= <- <-]; (split; [eexists; split; [reflexivity|]|]);
    eauto with geocode.
Qed.

Lemma Batch_inRange st addresses results st' :
  Batch (geocodeAddress provider) st addresses results st' ->
  cacheInRange st ->
  Forall (fun r => inRange (coordinates r) = true) results
  /\ cacheInRange st'.
Proof.
  induction 1 as [st|st address rest r st1 results st2 Hr Hb IH
                    |st address rest e st1 results st2 Hr Hb IH];
    intros Hst.
  - split; [constructor|exact Hst].
  - destruct (geocodeAddress_inRange _ _ _ _ Hst Hr)
      as ((r' & [= <-] & Hin) & Hst1).
    destruct (IH Hst1) as (Hall & Hst2). split; [constructor|]; assumption.
  - destruct (geocodeAddress_inRange _ _ _ _ Hst Hr)
      as ((r' & Habs & _) & _). discriminate.
Qed.

End Calls.

(** *** The Coordinate invariant *)

Lemma Reachable_cacheInRange st : Reachable st -> cacheInRange st.
Proof.
  induction 1 as [|provider address st Hreach IH
                  |provider addresses st Hreach IH].
  - intros k v. cbn. rewrite lookup_empty. discriminate.
  - destruct (geocodeAddress provider address st) as [c st'] eqn:Hrun.
    apply (geocodeAddress_inRange _ _ _ _ _ IH Hrun).
  - unfold geocodeMultipleAddresses.
    destruct (forEachAddress_batch (geocodeAddress provider) addresses [] st)
      as (results & st' & Hrun & Hb).
    rewrite Hrun. apply (Batch_inRange _ _ _ _ _ Hb IH).
Qed.

(** *** The success path *)

(** A candidate whose [lat] and [lon] are truthy and parse to a pair in
    range is returned and cached, with the provider's [display_name] when
    it is truthy and the trimmed address otherwise. *)
Lemma geocodeAddress_found provider address st r props others
    latField lonField la lo :
  geocodingCache st !! address = None ->
  nonEmpty (trim address) = true ->
  answerTo provider st address = Responded r ->
  ok r = true ->
  body r = Some (JArr (JObj props :: others)) ->
  ownProperty "lat" props = Some latField ->
  ownProperty "lon" props = Some lonField ->
  truthy latField = true ->
  truthy lonField = true ->
  parseFloat (Some latField) = Return la ->
  parseFloat (Some lonField) = Return lo ->
  inRange {| lat := la; lng := lo |} = true ->
  let result :=
    {| coordinates := {| lat := la; lng := lo |};
       formattedAddress :=
         orElse (ownProperty "display_name" props) (JStr (trim address)) |} in
  geocodeAddress provider address st
  = (Return result, cached (requested st (trim address)) address result).
Proof.
  intros Hmiss Hne Hans Hok Hbody Hlat Hlon Htlat Htlon Hla Hlo Hin result.
  by_paths.
  rewrite Hmiss, Hne, Hans. unfold attempt. rewrite Hok, Hbody. cbn [negb].
  rewrite decode_first, Hlat, Hlon. cbn [truthyOpt].
  rewrite Htlat, Htlon, Hla, Hlo. cbn [andb andThen].
  rewrite invalidCoordinates_inRange, Hin. reflexivity.
Qed.

(** *** The examples of the specification *)

Example springfield :
  let provider := fun (_ : nat) (_ : string) =>
    Responded {| status := 200;
                 body := Some (JArr [JObj [("lat", JStr "39.77");
                                           ("lon", JStr "-89.65");
                                           ("display_name",
                                            JStr "Springfield, IL, USA")]]) |} in
  fst (geocodeAddress provider "123 Main St, Springfield" initial)
  = Return {| coordinates := {| lat := ofDecimal false 3977 (-2);
                                lng := ofDecimal true 8965 (-2) |};
              formattedAddress := JStr "Springfield, IL, USA" |}.
Proof. reflexivity. Qed.

Example germany :
  let provider := fun (_ : nat) (_ : string) =>
    Responded {| status := 500; body := None |} in
  fst (geocodeAddress provider "some address in Germany" initial)
  = Return {| coordinates := fallbackCoordinates.europe;
              formattedAddress := JStr "some address in Germany" |}.
Proof. reflexivity. Qed.

(** A resolver that throws on ["B"]: the loop still returns three
    results, in order, with the default fallback for ["B"]. *)
Example batch_with_a_throwing_item :
  let provider := fun (_ : nat) (_ : string) =>
    Responded {| status := 200;
                 body := Some (JArr [JObj [("lat", JStr "1");
                                           ("lon", JStr "2")]]) |} in
  let resolve := fun address =>
    if String.eqb address "B" then throw TypeError
    else geocodeAddress provider address in
  let found address :=
    {| coordinates := {| lat := ofZ 1; lng := ofZ 2 |};
       formattedAddress := JStr address |} in
  fst (forEachAddress resolve ["A"; "B"; "C"] [] initial)
  = Return [found "A"; defaultFallback "B"; found "C"].
Proof. reflexivity. Qed.

(** ** The claims *)

(** C1. Whatever the address, the state and the provider's answer
    (rejection, error status, malformed body, any JSON value),
    [geocodeAddress] completes by returning a result, never by throwing;
    hence a run of [geocodeMultipleAddresses] returns too and never
    executes its [catch] block: the console holds as many 'Failed to
    geocode address' lines after the run as before. *)
Theorem geocodeAddress_never_throws :
  (forall provider address st,
     exists r st', geocodeAddress provider address st = (Return r, st'))
  /\ (forall provider addresses st,
        exists results st',
          geocodeMultipleAddresses provider addresses st
            = (Return results, st')
          /\ batchFailures (console st') = batchFailures (console st)).
Proof.
  split.
  - intros provider address st.
    destruct (geocodeAddress_effect provider address st)
      as (r & st' & Hrun & _).
    exists r, st'. exact Hrun.
  - intros provider addresses st. unfold geocodeMultipleAddresses.
    destruct (forEachAddress_batch (geocodeAddress provider) addresses [] st)
      as (results & st' & Hrun & Hb).
    exists results, st'. split; [exact Hrun|].
    apply (Batch_geocodeAddress _ _ _ _ _ Hb).
Qed.

(** C2. A second call of [geocodeAddress] on the same address, made in
    the state the first call left, returns the same result and leaves the
    state untouched, the log of outbound requests included, whatever the
    provider would answer; the same holds for a second run of
    [geocodeMultipleAddresses] over the same list. *)
Theorem second_call_is_a_cache_hit :
  (forall provider provider' address st,
     let '(c1, st1) := geocodeAddress provider address st in
     let '(c2, st2) := geocodeAddress provider' address st1 in
     c2 = c1 /\ requests st2 = requests st1 /\ st2 = st1)
  /\ (forall provider provider' addresses st,
        let '(c1, st1) := geocodeMultipleAddresses provider addresses st in
        let '(c2, st2) := geocodeMultipleAddresses provider' addresses st1 in
        c2 = c1 /\ requests st2 = requests st1 /\ st2 = st1).
Proof.
  split.
  - intros provider provider' address st.
    destruct (geocodeAddress_effect provider address st)
      as (r & st1 & Hrun & Hhit & _).
    rewrite Hrun, (geocodeAddress_hit provider' _ _ _ Hhit). auto.
  - intros provider provider' addresses st. unfold geocodeMultipleAddresses.
    destruct (forEachAddress_batch (geocodeAddress provider) addresses [] st)
      as (results & st1 & Hrun & Hb).
    rewrite Hrun.
    destruct (Batch_geocodeAddress _ _ _ _ _ Hb) as (Hwarm & _).
    rewrite (forEachAddress_warm provider' _ [] _ _ Hwarm). auto.
Qed.

(** C6. For an address that is not a key of the cache and whose trimmed
    form is empty, as for [""] and ["   "], [geocodeAddress] returns the
    default coordinate (39.8283, -98.5795) with the text 'Unknown
    Location', binds the untrimmed address to that result in the cache,
    and sends no request. *)
Theorem empty_address_is_unknown_location provider address st :
  geocodingCache st !! address = None ->
  trim address = "" ->
  let unknown :=
    {| coordinates := {| lat := ofDecimal false 398283 (-4);
                         lng := ofDecimal true 985795 (-4) |};
       formattedAddress := JStr "Unknown Location" |} in
  geocodeAddress provider address st
    = (Return unknown,
       {| geocodingCache := <[address := unknown]> (geocodingCache st);
          requests := requests st;
          console := console st |})
  /\ coordinates unknown = fallbackCoordinates.default
  /\ trim "" = "" /\ trim "   " = "".
Proof.
  intros Hmiss Hempty unknown. repeat split.
  by_paths.
  rewrite Hmiss, Hempty. reflexivity.
Qed.

Lemma empty_address_is_unknown_location_witness :
  geocodeAddress (fun _ _ => Rejected) "   " initial
  = (Return unknownLocation,
     {| geocodingCache := <["   " := unknownLocation]> ∅;
        requests := []; console := [] |}).
Proof.
  apply (empty_address_is_unknown_location (fun _ _ => Rejected) "   " initial);
    reflexivity.
Defined.

(** C7. [geocodeMultipleAddresses] returns one result per address, in
    the order of the addresses: the loop resolves the addresses one after
    the other, each in the state the previous one left; when the resolver
    throws on an address, that address gets the default coordinate with
    the address itself as text, and the loop goes on with the next
    address. This holds for the loop over any resolver, and so for the
    loop over [geocodeAddress]. *)
Theorem batch_is_sequential_and_total :
  (forall resolve addresses st,
     exists results st',
       forEachAddress resolve addresses [] st = (Return results, st')
       /\ List.length results = List.length addresses
       /\ Batch resolve st addresses results st')
  /\ (forall provider addresses st,
        exists results st',
          geocodeMultipleAddresses provider addresses st
            = (Return results, st')
          /\ List.length results = List.length addresses
          /\ Batch (geocodeAddress provider) st addresses results st').
Proof.
  assert (H : forall resolve addresses st,
     exists results st',
       forEachAddress resolve addresses [] st = (Return results, st')
       /\ List.length results = List.length addresses
       /\ Batch resolve st addresses results st').
  { intros resolve addresses st.
    destruct (forEachAddress_batch resolve addresses [] st)
      as (results & st' & Hrun & Hb).
    exists results, st'. repeat split; [exact Hrun| |exact Hb].
    apply (Batch_length _ _ _ _ _ Hb). }
  split; [exact H|].
  intros provider addresses st. apply H.
Qed.

(** C9. One call of [geocodeAddress] leaves the cache as it is when the
    address is already a key, and otherwise adds exactly one entry, the
    address bound to the returned result (a fallback result included);
    the entry of every other key is unchanged; the call sends at most
    one request, for the trimmed address, and none on a cache hit or
    when the trimmed address is empty. *)
Theorem one_call_frame provider address st :
  let '(c, st') := geocodeAddress provider address st in
  match geocodingCache st !! address with
  | Some hit =>
      c = Return hit
      /\ geocodingCache st' = geocodingCache st
      /\ requests st' = requests st
  | None =>
      exists r,
        c = Return r
        /\ geocodingCache st' = <[address := r]> (geocodingCache st)
        /\ size (geocodingCache st') = S (size (geocodingCache st))
  end
  /\ (forall k, k <> address ->
                geocodingCache st' !! k = geocodingCache st !! k)
  /\ (requests st' = requests st
      \/ requests st' = (requests st ++ [trim address])%list)
  /\ (trim address = "" -> requests st' = requests st).
Proof.
  by_paths.
  destruct (geocodingCache st !! address) as [hit|] eqn:Hc.
  { repeat split; auto. }
  assert (Hother : forall r k, k <> address ->
            <[address := r]> (geocodingCache st) !! k = geocodingCache st !! k).
  { intros r k Hne. apply lookup_insert_ne. congruence. }
  assert (Hsize : forall r,
            size (<[address := r]> (geocodingCache st))
            = S (size (geocodingCache st))).
  { intros r. apply map_size_insert_None, Hc. }
  destruct (nonEmpty (trim address)) eqn:Hne.
  - destruct (attempt _ _) as [r|e]; cbn;
      (split; [eexists; repeat split; apply Hsize|]);
      (split; [apply Hother|]); (split; [right; reflexivity|]);
      intros Hempty; rewrite Hempty in Hne; discriminate.
  - cbn. (split; [eexists; repeat split; apply Hsize|]).
    split; [apply Hother|]. split; [left; reflexivity|]. reflexivity.
Qed.

(** C3. For an address that is not a key of the cache and is not empty
    once trimmed, every answer classified as a failed lookup (a rejected
    request, a status outside 200..299, a body that is not JSON, an empty
    array of candidates, a latitude or longitude that parses to NaN, a
    parsed pair outside the range) has the same outcome: the call returns
    the regional fallback of the trimmed address, a function of the
    address alone, and caches it. The fallback coordinate is in range,
    never the provider's invalid value; for the address ["xyz"] it is the
    default coordinate. *)
Theorem failures_share_the_fallback provider address st :
  geocodingCache st !! address = None ->
  nonEmpty (trim address) = true ->
  LookupFailure (answerTo provider st address) ->
  let fallback :=
    {| coordinates := fallbackCoords (toLowerCase (trim address));
       formattedAddress := JStr (trim address) |} in
  fst (geocodeAddress provider address st) = Return fallback
  /\ geocodingCache (snd (geocodeAddress provider address st))
     = <[address := fallback]> (geocodingCache st)
  /\ inRange (coordinates fallback) = true
  /\ (trim address = "xyz" ->
      coordinates fallback = fallbackCoordinates.default).
Proof.
  intros Hmiss Hne Hfail fallback.
  destruct (LookupFailure_throws (trim address) _ Hfail) as [e He].
  by_paths.
  rewrite Hmiss, Hne, He. cbn [fst snd]. repeat split.
  - apply fallbackCoords_inRange.
  - intros Hxyz. subst fallback. rewrite Hxyz. reflexivity.
Qed.

Lemma failures_share_the_fallback_witness :
  let provider := fun (_ : nat) (_ : string) =>
    Responded {| status := 200;
                 body := Some (JArr [JObj [("lat", JStr "200");
                                           ("lon", JStr "10")]]) |} in
  fst (geocodeAddress provider "xyz" initial)
  = Return {| coordinates := fallbackCoordinates.default;
              formattedAddress := JStr "xyz" |}.
Proof.
  intros provider.
  apply (failures_share_the_fallback provider "xyz" initial);
    [reflexivity|reflexivity|].
  eapply Failure_out_of_range; reflexivity.
Defined.

(** C4. For an address that is not a key of the cache, is not empty once
    trimmed and whose lookup fails, the call returns the trimmed address
    as text and a coordinate chosen from the trimmed, lower-cased
    address: the europe coordinate (54.526, 15.2551) when it has
    'europe', 'uk', 'germany' or 'france' as a substring; else the asia
    coordinate when it has 'asia', 'china', 'japan' or 'india' as a
    substring; else the default coordinate. Substrings are not words: an
    address containing 'ukulele' gets the europe coordinate. *)
Theorem fallback_region_by_substring provider address st e :
  geocodingCache st !! address = None ->
  nonEmpty (trim address) = true ->
  attempt (trim address) (answerTo provider st address) = Throw e ->
  let lower := toLowerCase (trim address) in
  let europe := Substring "europe" lower \/ Substring "uk" lower
                \/ Substring "germany" lower \/ Substring "france" lower in
  let asia := Substring "asia" lower \/ Substring "china" lower
              \/ Substring "japan" lower \/ Substring "india" lower in
  exists coords,
    fst (geocodeAddress provider address st)
    = Return {| coordinates := coords;
                formattedAddress := JStr (trim address) |}
    /\ (europe ->
        coords = {| lat := ofDecimal false 54526 (-3);
                    lng := ofDecimal false 152551 (-4) |}
        /\ coords = fallbackCoordinates.europe)
    /\ (~ europe -> asia -> coords = fallbackCoordinates.asia)
    /\ (~ europe -> ~ asia -> coords = fallbackCoordinates.default)
    /\ (Substring "ukulele" lower -> coords = fallbackCoordinates.europe).
Proof.
  intros Hmiss Hne He lower europe asia.
  exists (fallbackCoords lower).
  pose (inEurope := includes lower "europe" || includes lower "uk"
                    || includes lower "germany" || includes lower "france").
  pose (inAsia := includes lower "asia" || includes lower "china"
                  || includes lower "japan" || includes lower "india").
  assert (Hsplit : fallbackCoords lower
                   = if inEurope then fallbackCoordinates.europe
                     else if inAsia then fallbackCoordinates.asia
                     else fallbackCoordinates.default) by reflexivity.
  assert (Heu : europe <-> inEurope = true).
  { unfold europe, inEurope.
    rewrite !orb_true_iff, !includes_Substring. tauto. }
  assert (Has : asia <-> inAsia = true).
  { unfold asia, inAsia.
    rewrite !orb_true_iff, !includes_Substring. tauto. }
  rewrite Hsplit. clearbody inEurope inAsia.
  split; [|split; [|split; [|split]]].
  - by_paths.
    rewrite Hmiss, Hne, He. cbn [fst]. unfold regionalFallback.
    fold lower. rewrite Hsplit. reflexivity.
  - intros H. apply Heu in H. rewrite H. split; reflexivity.
  - intros Hn H. apply Has in H. rewrite H.
    destruct inEurope; [exfalso; apply Hn, Heu; reflexivity|reflexivity].
  - intros Hn Hn'.
    destruct inEurope; [exfalso; apply Hn, Heu; reflexivity|].
    destruct inAsia; [exfalso; apply Hn', Has; reflexivity|reflexivity].
  - intros (before & after & H).
    assert (Huk : europe).
    { right; left. exists before, ("ulele" ++ after). rewrite H.
      reflexivity. }
    apply Heu in Huk. rewrite Huk. reflexivity.
Qed.

Lemma fallback_region_by_substring_witness :
  fst (geocodeAddress (fun _ _ => Rejected) " My Ukulele Shop " initial)
  = Return {| coordinates := fallbackCoordinates.europe;
              formattedAddress := JStr "My Ukulele Shop" |}.
Proof.
  destruct (fallback_region_by_substring
              (fun _ _ => Rejected) " My Ukulele Shop " initial NetworkError
              eq_refl eq_refl eq_refl)
    as (coords & Hrun & _ & _ & _ & Hukulele).
  rewrite Hrun, Hukulele; [reflexivity|].
  exists "my ", " shop". reflexivity.
Defined.

(** C5 (the code departs from the claim). A candidate on the equator
    whose latitude is the number 0 parses to the pair (0, -78.5), which
    is in range, yet the call returns the default fallback coordinate,
    because the presence test of line 46 takes the falsy 0 for a missing
    field; the same candidate with the latitude as the string '0' is
    returned as the claim says. *)
Theorem equator_candidate_is_rejected :
  let answer (latField : JSON) := fun (_ : nat) (_ : string) =>
    Responded {| status := 200;
                 body := Some (JArr [JObj [("lat", latField);
                                           ("lon", JStr "-78.5");
                                           ("display_name",
                                            JStr "Quito, Ecuador")]]) |} in
  let longitude := ofDecimal true 785 (-1) in
  parseFloat (Some (JNum zero)) = Return zero
  /\ parseFloat (Some (JStr "-78.5")) = Return longitude
  /\ inRange {| lat := zero; lng := longitude |} = true
  /\ fst (geocodeAddress (answer (JNum zero)) "Quito" initial)
     = Return {| coordinates := fallbackCoordinates.default;
                 formattedAddress := JStr "Quito" |}
  /\ fst (geocodeAddress (answer (JStr "0")) "Quito" initial)
     = Return {| coordinates := {| lat := zero; lng := longitude |};
                 formattedAddress := JStr "Quito, Ecuador" |}.
Proof. repeat split. Qed.

(** C8. In every state the module can reach from the initial one, all
    coordinates held by the cache are in range, latitude in [-90, 90] and
    longitude in [-180, 180], and so is the coordinate of every result
    either operation returns from that state. *)
Theorem coordinates_in_range st :
  Reachable st ->
  cacheInRange st
  /\ (forall provider address r,
        fst (geocodeAddress provider address st) = Return r ->
        le (neg (ofZ 90)) (lat (coordinates r)) = true
        /\ le (lat (coordinates r)) (ofZ 90) = true
        /\ le (neg (ofZ 180)) (lng (coordinates r)) = true
        /\ le (lng (coordinates r)) (ofZ 180) = true)
  /\ (forall provider addresses results,
        fst (geocodeMultipleAddresses provider addresses st)
          = Return results ->
        Forall (fun r => inRange (coordinates r) = true) results).
Proof.
  intros Hreach. pose proof (Reachable_cacheInRange st Hreach) as Hst.
  split; [exact Hst|]. split.
  - intros provider address r.
    destruct (geocodeAddress provider address st) as [c st'] eqn:Hrun.
    destruct (geocodeAddress_inRange _ _ _ _ _ Hst Hrun)
      as ((r' & -> & Hin) & _).
    cbn [fst]. intros [= <-]. unfold inRange in Hin.
    rewrite !andb_true_iff in Hin. tauto.
  - intros provider addresses results. unfold geocodeMultipleAddresses.
    destruct (forEachAddress_batch (geocodeAddress provider) addresses [] st)
      as (results' & st' & Hrun & Hb).
    rewrite Hrun. cbn [fst]. intros [= <-].
    apply (Batch_inRange _ _ _ _ _ Hb Hst).
Qed.

Lemma coordinates_in_range_witness :
  cacheInRange
    (snd (geocodeMultipleAddresses (fun _ _ => Rejected)
            ["Paris, France"; ""] initial)).
Proof.
  apply (coordinates_in_range
           (snd (geocodeMultipleAddresses (fun _ _ => Rejected)
                   ["Paris, France"; ""] initial))).
  apply Reachable_many, Reachable_initial.
Defined.

(** C10. There are answers with a first candidate whose latitude or
    longitude is falsy and still parses to a valid number: the number 0
    (of either sign) is falsy, [parseFloat] maps it to 0, and 0 is in
    range. On every successful answer whose first candidate has such a
    latitude or longitude, the presence test fails: the call throws
    'Address not found' inside the [try] block and returns the regional
    fallback instead of the parsed coordinate. *)
Theorem zero_coordinate_is_treated_as_absent
    provider address st r props others (sign : bool) :
  geocodingCache st !! address = None ->
  nonEmpty (trim address) = true ->
  answerTo provider st address = Responded r ->
  ok r = true ->
  body r = Some (JArr (JObj props :: others)) ->
  ownProperty "lat" props = Some (JNum (S754_zero sign))
  \/ ownProperty "lon" props = Some (JNum (S754_zero sign)) ->
  truthy (JNum (S754_zero sign)) = false
  /\ parseFloat (Some (JNum (S754_zero sign))) = Return zero
  /\ inRange {| lat := zero; lng := zero |} = true
  /\ geocodeAddress provider address st
     = (Return (regionalFallback (trim address)),
        cached (logged (requested st (trim address))
                       (GeocodingError (trim address) AddressNotFound))
               address (regionalFallback (trim address))).
Proof.
  intros Hmiss Hne Hans Hok Hbody Hzero. repeat split.
  by_paths.
  rewrite Hmiss, Hne, Hans. unfold attempt. rewrite Hok, Hbody. cbn [negb].
  rewrite decode_first.
  destruct Hzero as [-> | ->]; cbn [truthyOpt truthy];
    rewrite ?andb_false_r; reflexivity.
Qed.

Lemma zero_coordinate_is_treated_as_absent_witness :
  let provider := fun (_ : nat) (_ : string) =>
    Responded {| status := 200;
                 body := Some (JArr [JObj [("lat", JNum zero);
                                           ("lon", JStr "6.6")]]) |} in
  fst (geocodeAddress provider "Sao Tome" initial)
  = Return {| coordinates := fallbackCoordinates.default;
              formattedAddress := JStr "Sao Tome" |}.
Proof.
  intros provider.
  destruct (zero_coordinate_is_treated_as_absent provider "Sao Tome" initial
              {| status := 200;
                 body := Some (JArr [JObj [("lat", JNum zero);
                                           ("lon", JStr "6.6")]]) |}
              [("lat", JNum zero); ("lon", JStr "6.6")] [] false
              eq_refl eq_refl eq_refl eq_refl eq_refl
              (or_introl eq_refl))
    as (_ & _ & _ & Hrun).
  rewrite Hrun. reflexivity.
Defined.

(** ** Further properties of the geocoding service *)

#[local] Set Warnings "-clear-no-such-hyp".

(** *** Requests and keys *)

Section Requests.

Variable provider : Provider.

(** The request and the key one call adds. *)
Lemma geocodeAddress_trace address st :
  let st' := snd (geocodeAddress provider address st) in
  requests st'
  = (requests st
     ++ if decide (address ∈ dom (geocodingCache st)) then []
        else if nonEmpty (trim address) then [trim address] else [])%list
  /\ dom (geocodingCache st') = {[address]} ∪ dom (geocodingCache st).
Proof.
  by_paths.
  destruct (geocodingCache st !! address) as [hit|] eqn:Hc.
  - assert (Hin : address ∈ dom (geocodingCache st))
      by (apply elem_of_dom; eauto).
    cbn [snd]. destruct (decide _) as [_|Hn]; [|contradiction].
    rewrite app_nil_r. split; [reflexivity|]. set_solver.
  - assert (Hout : address ∉ dom (geocodingCache st))
      by (apply not_elem_of_dom; exact Hc).
    destruct (decide _) as [Hin|_]; [contradiction|].
    destruct (nonEmpty (trim address)).
    + destruct (attempt _ _); cbn; (split; [reflexivity|apply dom_insert_L]).
    + cbn. rewrite app_nil_r. split; [reflexivity|apply dom_insert_L].
Qed.

Lemma Batch_trace st addresses results st' :
  Batch (geocodeAddress provider) st addresses results st' ->
  requests st'
  = (requests st ++ newQueries (dom (geocodingCache st)) addresses)%list
  /\ dom (geocodingCache st')
     = list_to_set addresses ∪ dom (geocodingCache st).
Proof.
  induction 1 as [st|st address rest r st1 results st2 Hr Hb IH
                    |st address rest e st1 results st2 Hr Hb IH].
  - cbn. rewrite app_nil_r. split; [reflexivity|set_solver].
  - destruct (geocodeAddress_trace address st) as (Hreq & Hdom).
    rewrite Hr in Hreq, Hdom. cbn [snd] in Hreq, Hdom.
    destruct IH as (IHreq & IHdom). rewrite IHreq, IHdom, Hreq, Hdom.
    cbn [newQueries list_to_set].
    destruct (decide (address ∈ dom (geocodingCache st))) as [Hin|Hout].
    + rewrite app_nil_r.
      replace ({[address]} ∪ dom (geocodingCache st))
        with (dom (geocodingCache st)) by set_solver.
      split; [reflexivity|set_solver].
    + rewrite <- app_assoc. split; [reflexivity|set_solver].
  - destruct (geocodeAddress_effect provider address st)
      as (r' & st1' & Hrun & _).
    rewrite Hrun in Hr. discriminate.
Qed.

End Requests.

Lemma newQueries_length known addresses :
  (List.length (newQueries known addresses) <= List.length addresses)%nat.
Proof.
  revert known. induction addresses as [|address rest IH]; intros known;
    cbn [newQueries List.length]; [lia|].
  destruct (decide _).
  - specialize (IH known). lia.
  - rewrite length_app. specialize (IH ({[address]} ∪ known)).
    destruct (nonEmpty (trim address)); cbn [List.length]; lia.
Qed.

(** A run of the batch operation is a run of the loop. *)
Lemma batch_run provider addresses st :
  exists results st',
    geocodeMultipleAddresses provider addresses st = (Return results, st')
    /\ Batch (geocodeAddress provider) st addresses results st'.
Proof.
  unfold geocodeMultipleAddresses.
  destruct (forEachAddress_batch (geocodeAddress provider) addresses [] st)
    as (results & st' & Hrun & Hb).
  exists results, st'. split; [exact Hrun|exact Hb].
Qed.


(** X2. After a run of [geocodeMultipleAddresses] the keys of the cache
    are the former keys and the addresses of the list; every former entry
    is still there, unchanged, and each address is bound to the result
    returned for it. *)
Theorem batch_cache provider addresses st :
  exists results st',
    geocodeMultipleAddresses provider addresses st = (Return results, st')
    /\ dom (geocodingCache st')
       = list_to_set addresses ∪ dom (geocodingCache st)
    /\ (forall k v, geocodingCache st !! k = Some v ->
                    geocodingCache st' !! k = Some v)
    /\ Forall2 (fun a r => geocodingCache st' !! a = Some r)
               addresses results.
Proof.
  unfold geocodeMultipleAddresses.
  destruct (forEachAddress_batch (geocodeAddress provider) addresses [] st)
    as (results & st' & Hrun & Hb).
  exists results, st'. split; [exact Hrun|].
  destruct (Batch_trace _ _ _ _ _ Hb) as (_ & Hdom).
  destruct (Batch_geocodeAddress _ _ _ _ _ Hb) as (Hwarm & Hkeep & _).
  auto.
Qed.



(** *** Candidates and display text *)

Lemma decode_first_only cleanAddress first others others' :
  decode cleanAddress (JArr (first :: others))
  = decode cleanAddress (JArr (first :: others')).
Proof. reflexivity. Qed.

(** X4. Only the first candidate of an answer counts: two answers with
    the same status whose candidate arrays start with the same candidate
    give the same result and the same state, whatever follows; a valid
    second candidate does not make up for a first one that is rejected. *)
Theorem only_the_first_candidate_counts
    provider provider' address st r r' first others others' :
  answerTo provider st address = Responded r ->
  answerTo provider' st address = Responded r' ->
  status r = status r' ->
  body r = Some (JArr (first :: others)) ->
  body r' = Some (JArr (first :: others')) ->
  geocodeAddress provider address st = geocodeAddress provider' address st.
Proof.
  intros Ha Ha' Hstatus Hbody Hbody'. by_paths. by_paths.
  rewrite Ha, Ha'. unfold attempt, ok. rewrite Hstatus, Hbody, Hbody'.
  rewrite (decode_first_only _ first others others'). reflexivity.
Qed.

Lemma only_the_first_candidate_counts_witness :
  let bad := JObj [("lat", JStr "north"); ("lon", JStr "2.35")] in
  let good := JObj [("lat", JStr "48.85"); ("lon", JStr "2.35")] in
  let answer candidates := fun (_ : nat) (_ : string) =>
    Responded {| status := 200; body := Some (JArr candidates) |} in
  geocodeAddress (answer [bad; good]) "Paris" initial
  = geocodeAddress (answer [bad]) "Paris" initial.
Proof.
  intros bad good answer.
  apply (only_the_first_candidate_counts
           (answer [bad; good]) (answer [bad]) "Paris" initial
           {| status := 200; body := Some (JArr [bad; good]) |}
           {| status := 200; body := Some (JArr [bad]) |}
           bad [good] []);
    reflexivity.
Defined.

Lemma decode_truthy cleanAddress data r :
  nonEmpty cleanAddress = true ->
  decode cleanAddress data = Return r ->
  truthy (formattedAddress r) = true.
Proof.
  intros Hclean. unfold decode.
  destruct (hasCandidate data) as [[|]|]; cbn [andThen]; try discriminate.
  destruct (get (Some data) K0) as [first|]; cbn [andThen]; try discriminate.
  destruct (get first Klat) as [latField|]; cbn [andThen]; try discriminate.
  destruct (parseFloat latField) as [la|]; cbn [andThen]; try discriminate.
  destruct (get first Klon) as [lonField|]; cbn [andThen]; try discriminate.
  destruct (parseFloat lonField) as [lo|]; cbn [andThen]; try discriminate.
  destruct (invalidCoordinates la lo); try discriminate.
  destruct (get first Kdisplay_name) as [name|]; cbn [andThen];
    try discriminate.
  intros [= <-]. cbn [formattedAddress]. unfold orElse.
  destruct name as [v|]; [destruct (truthy v) eqn:Hv|]; auto.
Qed.

Lemma geocodeAddress_truthy provider address st c st' :
  cacheTruthy st ->
  geocodeAddress provider address st = (c, st') ->
  (exists r, c = Return r /\ truthy (formattedAddress r) = true)
  /\ cacheTruthy st'.
Proof.
  intros Hst. by_paths.
  assert (Hcached : forall s r, cacheTruthy s ->
            truthy (formattedAddress r) = true ->
            cacheTruthy (cached s address r)).
  { intros s r Hs Hr k v. unfold cached. cbn [geocodingCache].
    destruct (decide (address = k)) as [->|Hne].
    - rewrite lookup_insert_eq. intros [= <-]. exact Hr.
    - rewrite lookup_insert_ne by assumption. apply Hs. }
  destruct (geocodingCache st !! address) as [hit|] eqn:Hc.
  { intros [= <- <-]. split; [|exact Hst]. exists hit.
    split; [reflexivity|]. eapply Hst, Hc. }
  destruct (nonEmpty (trim address)) eqn:Hclean.
  - destruct (attempt _ _) as [r|e] eqn:Ha; intros [= <- <-].
    + assert (Hr : truthy (formattedAddress r) = true).
      { revert Ha. unfold attempt.
        destruct (answerTo provider st address) as [|resp];
          try discriminate.
        destruct (negb (ok resp)); try discriminate.
        destruct (body resp); try discriminate.
        apply decode_truthy, Hclean. }
      split; [exists r; auto|]. apply Hcached; [exact Hst|exact Hr].
    + split; [eexists; split; [reflexivity|exact Hclean]|].
      apply Hcached; [exact Hst|exact Hclean].
  - intros [= <- <-]. split; [eexists; split; reflexivity|].
    apply Hcached; [exact Hst|reflexivity].
Qed.

Lemma Batch_truthy provider st addresses results st' :
  Batch (geocodeAddress provider) st addresses results st' ->
  cacheTruthy st ->
  Forall (fun r => truthy (formattedAddress r) = true) results
  /\ cacheTruthy st'.
Proof.
  induction 1 as [st|st address rest r st1 results st2 Hr Hb IH
                    |st address rest e st1 results st2 Hr Hb IH];
    intros Hst.
  - split; [constructor|exact Hst].
  - destruct (geocodeAddress_truthy _ _ _ _ _ Hst Hr)
      as ((r' & [= <-] & Hin) & Hst1).
    destruct (IH Hst1) as (Hall & Hst2). split; [constructor|]; assumption.
  - destruct (geocodeAddress_truthy _ _ _ _ _ Hst Hr)
      as ((r' & Habs & _) & _). discriminate.
Qed.

Lemma Reachable_cacheTruthy st : Reachable st -> cacheTruthy st.
Proof.
  induction 1 as [|provider address st Hreach IH
                  |provider addresses st Hreach IH].
  - intros k v. cbn. rewrite lookup_empty. discriminate.
  - destruct (geocodeAddress provider address st) as [c st'] eqn:Hrun.
    apply (geocodeAddress_truthy _ _ _ _ _ IH Hrun).
  - unfold geocodeMultipleAddresses.
    destruct (forEachAddress_batch (geocodeAddress provider) addresses [] st)
      as (results & st' & Hrun & Hb).
    rewrite Hrun. apply (Batch_truthy _ _ _ _ _ Hb IH).
Qed.

(** X5. The display text is never missing: in every state the module can
    reach, the [formattedAddress] of every cached result and of every
    result either operation returns is truthy, that is, not the empty
    string. An empty [display_name] is replaced by the trimmed address,
    the trimmed address is used only when it is not empty, and a blank
    address gets 'Unknown Location'. *)
Theorem display_text_is_never_empty st :
  Reachable st ->
  cacheTruthy st
  /\ (forall provider address r,
        fst (geocodeAddress provider address st) = Return r ->
        truthy (formattedAddress r) = true
        /\ formattedAddress r <> JStr "")
  /\ (forall provider addresses results,
        fst (geocodeMultipleAddresses provider addresses st)
          = Return results ->
        Forall (fun r => truthy (formattedAddress r) = true) results).
Proof.
  intros Hreach. pose proof (Reachable_cacheTruthy st Hreach) as Hst.
  split; [exact Hst|]. split.
  - intros provider address r.
    destruct (geocodeAddress provider address st) as [c st'] eqn:Hrun.
    destruct (geocodeAddress_truthy _ _ _ _ _ Hst Hrun)
      as ((r' & -> & Hin) & _).
    cbn [fst]. intros [= <-]. split; [exact Hin|].
    intros Heq. rewrite Heq in Hin. discriminate.
  - intros provider addresses results. unfold geocodeMultipleAddresses.
    destruct (forEachAddress_batch (geocodeAddress provider) addresses [] st)
      as (results' & st' & Hrun & Hb).
    rewrite Hrun. cbn [fst]. intros [= <-].
    apply (Batch_truthy _ _ _ _ _ Hb Hst).
Qed.

Lemma display_text_is_never_empty_witness :
  cacheTruthy
    (snd (geocodeMultipleAddresses
            (fun _ _ =>
               Responded {| status := 200;
                            body := Some (JArr [JObj [("lat", JStr "1");
                                                      ("lon", JStr "2");
                                                      ("display_name",
                                                       JStr "")]]) |})
            ["Lagos"; "  "] initial)).
Proof.
  apply display_text_is_never_empty.
  apply Reachable_many, Reachable_initial.
Defined.

(** *** Batches compose *)

Lemma forEachAddress_results resolve addresses :
  forall results more st,
    forEachAddress resolve addresses (results ++ more)%list st
    = match forEachAddress resolve addresses more st with
      | (Return rs, st') => (Return (results ++ rs)%list, st')
      | (Throw e, st') => (Throw e, st')
      end.
Proof.
  induction addresses as [|address rest IH]; intros results more st.
  - reflexivity.
  - rewrite !forEachAddress_cons.
    destruct (resolve address st) as [[r|e] st1]; unfold push;
      rewrite <- app_assoc; apply IH.
Qed.

Lemma forEachAddress_app resolve first second :
  forall results st,
    forEachAddress resolve (first ++ second)%list results st
    = match forEachAddress resolve first results st with
      | (Return rs, st') => forEachAddress resolve second rs st'
      | (Throw e, st') => (Throw e, st')
      end.
Proof.
  induction first as [|address rest IH]; intros results st.
  - reflexivity.
  - cbn [app]. rewrite !forEachAddress_cons.
    destruct (resolve address st) as [[r|e] st1]; apply IH.
Qed.

(** X6. Batches compose: resolving the list [first ++ second] in one run
    gives the results and leaves the state that resolving [first] and
    then, from the state it left, [second] gives, the results being put
    end to end. *)
Theorem batch_of_append provider first second st :
  exists results1 st1 results2 st2,
    geocodeMultipleAddresses provider first st = (Return results1, st1)
    /\ geocodeMultipleAddresses provider second st1 = (Return results2, st2)
    /\ geocodeMultipleAddresses provider (first ++ second)%list st
       = (Return (results1 ++ results2)%list, st2).
Proof.
  unfold geocodeMultipleAddresses.
  destruct (forEachAddress_batch (geocodeAddress provider) first [] st)
    as (results1 & st1 & Hrun1 & _).
  destruct (forEachAddress_batch (geocodeAddress provider) second [] st1)
    as (results2 & st2 & Hrun2 & _).
  exists results1, st1, results2, st2. cbn [app] in Hrun1, Hrun2.
  split; [exact Hrun1|]. split; [exact Hrun2|].
  rewrite forEachAddress_app, Hrun1.
  rewrite <- (app_nil_r results1) at 1.
  rewrite forEachAddress_results, Hrun2. reflexivity.
Qed.

(** *** The console *)


(** ** Properties of [geocodeLocations] *)

Lemma hasCurrent_iff shipment :
  ShipmentMap.hasCurrent shipment = true <->
  exists location,
    Shipment.currentLocation shipment = Some location
    /\ location <> "" /\ location <> Shipment.origin shipment.
Proof.
  unfold ShipmentMap.hasCurrent.
  destruct (Shipment.currentLocation shipment) as [location|].
  - rewrite andb_true_iff, negb_true_iff. split.
    + intros [Hne Hneq]. exists location. split; [reflexivity|]. split.
      * intros ->. discriminate.
      * apply String.eqb_neq, Hneq.
    + intros (l & [= <-] & Hne & Hneq). split.
      * destruct location; [contradiction|reflexivity].
      * apply String.eqb_neq, Hneq.
  - split; [discriminate|]. intros (l & Habs & _). discriminate.
Qed.

(** The run of the batch inside [geocodeLocations]. *)
Lemma geocodeLocations_batch provider shipment st :
  exists o d results st',
    geocodeMultipleAddresses provider (ShipmentMap.addressesOf shipment) st
    = (Return (o :: d :: results), st')
    /\ geocodingCache st' !! Shipment.origin shipment = Some o
    /\ geocodingCache st' !! Shipment.destination shipment = Some d
    /\ (ShipmentMap.hasCurrent shipment = false -> results = [])
    /\ (ShipmentMap.hasCurrent shipment = true ->
        exists location c,
          Shipment.currentLocation shipment = Some location
          /\ results = [c]
          /\ geocodingCache st' !! location = Some c).
Proof.
  destruct (batch_run provider (ShipmentMap.addressesOf shipment) st)
    as (results & st' & Hrun & Hb).
  destruct (Batch_geocodeAddress _ _ _ _ _ Hb) as (Hwarm & _).
  unfold Warm in Hwarm. rewrite Hrun. revert Hwarm. clear Hb. unfold ShipmentMap.addressesOf.
  destruct (Shipment.currentLocation shipment) as [location|] eqn:Hloc;
    [destruct (ShipmentMap.hasCurrent shipment) eqn:Hcur|
     assert (Hcur : ShipmentMap.hasCurrent shipment = false)
       by (unfold ShipmentMap.hasCurrent; rewrite Hloc; reflexivity)];
    unfold push; cbn [app]; intros Hwarm;
    repeat match goal with
           | H : Forall2 _ (_ :: _) _ |- _ =>
               inversion H; subst; clear H
           | H : Forall2 _ [] _ |- _ => inversion H; subst; clear H
           end.
  - eexists _, _, _, _. split; [reflexivity|]. repeat split; try assumption.
    + discriminate.
    + intros _. eexists _, _. repeat split. assumption.
  - eexists _, _, _, _. split; [reflexivity|]. repeat split; try assumption.
    discriminate.
  - eexists _, _, _, _. split; [reflexivity|]. repeat split; try assumption.
    rewrite Hcur. discriminate.
Qed.

(** X7. A run of [geocodeLocations] always ends with the loading flag
    down and no error message, and with an origin and a destination
    location, which are the cache's entries for the shipment's origin and
    destination: after a run the component shows neither its error view
    nor 'Map data unavailable'. The run sends at most three requests. *)
Theorem geocodeLocations_always_locates provider shipment c st :
  let '(c', st') := ShipmentMap.geocodeLocations provider shipment c st in
  ShipmentMap.isLoading c' = false
  /\ ShipmentMap.error c' = None
  /\ (exists o d,
        ShipmentMap.origin (ShipmentMap.geocodedLocations c') = Some o
        /\ ShipmentMap.destination (ShipmentMap.geocodedLocations c') = Some d
        /\ geocodingCache st' !! Shipment.origin shipment = Some o
        /\ geocodingCache st' !! Shipment.destination shipment = Some d)
  /\ (List.length (requests st') <= List.length (requests st) + 3)%nat.
Proof.
  destruct (batch_run provider (ShipmentMap.addressesOf shipment) st)
    as (results0 & st0 & Hrun0 & Hb).
  destruct (Batch_trace _ _ _ _ _ Hb) as (Hreq & _).
  pose proof (newQueries_length (dom (geocodingCache st))
                (ShipmentMap.addressesOf shipment)) as Hlen.
  destruct (geocodeLocations_batch provider shipment st)
    as (o & d & results & st' & Hrun & Ho & Hd & _).
  rewrite Hrun in Hrun0. injection Hrun0 as _ <-.
  unfold ShipmentMap.geocodeLocations. rewrite Hrun.
  cbn. repeat split; [exists o, d; auto|].
  assert (Hadd : (List.length (ShipmentMap.addressesOf shipment) <= 3)%nat).
  { unfold ShipmentMap.addressesOf.
    destruct (Shipment.currentLocation shipment);
      [destruct (ShipmentMap.hasCurrent shipment)|]; cbn; lia. }
  rewrite Hreq, length_app. lia.
Qed.

(** X8. The current location is located exactly when the shipment has
    one that is neither empty nor, character for character, its origin;
    it is then the cache's entry for that address. Otherwise the run
    leaves it null, even when a third result could be had. *)
Theorem geocodeLocations_current provider shipment c st :
  let '(c', st') := ShipmentMap.geocodeLocations provider shipment c st in
  let current := ShipmentMap.current (ShipmentMap.geocodedLocations c') in
  match Shipment.currentLocation shipment with
  | Some location =>
      if decide (location = "" \/ location = Shipment.origin shipment)
      then current = None
      else is_Some current /\ current = geocodingCache st' !! location
  | None => current = None
  end.
Proof.
  destruct (geocodeLocations_batch provider shipment st)
    as (o & d & results & st' & Hrun & _ & _ & Hno & Hyes).
  unfold ShipmentMap.geocodeLocations. rewrite Hrun.
  cbn [ShipmentMap.setIsLoading ShipmentMap.setGeocodedLocations
       ShipmentMap.consoleLine ShipmentMap.setError
       ShipmentMap.geocodedLocations ShipmentMap.locationMapOf
       ShipmentMap.current].
  destruct (ShipmentMap.hasCurrent shipment) eqn:Hcur.
  - destruct (Hyes eq_refl) as (location & cur & Hloc & -> & Hcache).
    apply hasCurrent_iff in Hcur as (l & Hl & Hne & Hneq).
    rewrite Hloc in Hl. injection Hl as <-. rewrite Hloc.
    destruct (decide _) as [[H|H]|_]; [contradiction|contradiction|].
    cbn. rewrite Hcache. split; [eauto|reflexivity].
  - destruct (Shipment.currentLocation shipment) as [location|] eqn:Hloc;
      [|reflexivity].
    destruct (decide _) as [_|Hn]; [reflexivity|exfalso].
    assert (Habs : ShipmentMap.hasCurrent shipment = true).
    { apply hasCurrent_iff. exists location. split; [exact Hloc|]. tauto. }
    congruence.
Qed.

Lemma batch_twice provider provider' addresses st :
  exists results st1,
    geocodeMultipleAddresses provider addresses st = (Return results, st1)
    /\ geocodeMultipleAddresses provider' addresses st1
       = (Return results, st1).
Proof.
  unfold geocodeMultipleAddresses.
  destruct (forEachAddress_batch (geocodeAddress provider) addresses [] st)
    as (results & st1 & Hrun & Hb).
  exists results, st1. split; [exact Hrun|].
  destruct (Batch_geocodeAddress _ _ _ _ _ Hb) as (Hwarm & _).
  apply (forEachAddress_warm provider' _ [] _ _ Hwarm).
Qed.

(** X9. Running [geocodeLocations] again for the same shipment, whatever
    the provider would answer then, sends no request, leaves the cache as
    it is, and gives the same locations. *)
Theorem geocodeLocations_again provider provider' shipment c st :
  let '(c1, st1) := ShipmentMap.geocodeLocations provider shipment c st in
  let '(c2, st2) := ShipmentMap.geocodeLocations provider' shipment c1 st1 in
  st2 = st1
  /\ ShipmentMap.geocodedLocations c2 = ShipmentMap.geocodedLocations c1.
Proof.
  destruct (batch_twice provider provider'
              (ShipmentMap.addressesOf shipment) st)
    as (results & st1 & Hrun1 & Hrun2).
  unfold ShipmentMap.geocodeLocations. rewrite Hrun1. cbn zeta.
  rewrite Hrun2. split; reflexivity.
Qed.

(** ** Properties of the email service *)

Lemma isSet_Some env name :
  Email.isSet env name = true ->
  exists v, env !! name = Some v /\ v <> "" /\ Email.envOrEmpty env name = v.
Proof.
  unfold Email.isSet, Email.envOrEmpty, orString.
  destruct (env !! name) as [v|]; [|discriminate].
  intros Hv. exists v. rewrite Hv. repeat split.
  intros ->. discriminate.
Qed.

Lemma filter_unset_nil env names :
  List.filter (fun varName => negb (Email.isSet env varName)) names = []
  <-> forallb (Email.isSet env) names = true.
Proof.
  induction names as [|name rest IH]; cbn; [tauto|].
  destruct (Email.isSet env name); cbn; [exact IH|].
  split; discriminate.
Qed.

Lemma checkEmailConfig_outcome env templateType sent :
  Email.checkEmailConfig env templateType sent
  = if forallb (Email.isSet env) (Email.requiredVars env templateType)
    then (Email.Resolved tt, sent)
    else (Email.Failed
            (Email.ErrorMessage
               ("Missing required environment variables: "
                ++ String.concat ", "
                     (List.filter
                        (fun varName => negb (Email.isSet env varName))
                        (Email.requiredVars env templateType)))),
          sent).
Proof.
  unfold Email.checkEmailConfig.
  destruct (forallb _ _) eqn:Hall.
  - apply filter_unset_nil in Hall. rewrite Hall. reflexivity.
  - destruct (List.filter _ _) as [|name rest] eqn:Hf.
    + apply filter_unset_nil in Hf. congruence.
    + reflexivity.
Qed.


(** What [sendShipperEmail] does, path by path. *)
Lemma sendShipperEmail_run env emailjs data sent :
  let failure :=
    Email.Failed (Email.ErrorMessage "Failed to send shipper email") in
  let prefix := if Email.isTest env then "TEST_" else "REACT_APP_EMAILJS" in
  Email.sendShipperEmail env emailjs data sent
  = if forallb (Email.isSet env) (Email.requiredVars env "SHIPPER")
    then
      match Email.send emailjs
              (Email.envOrEmpty env (prefix ++ "_SERVICE_ID"))
              (Email.envOrEmpty env (prefix ++ "_SHIPPER_TEMPLATE_ID"))
              [("to_name", EmailData.shipperName data);
               ("tracking_number", EmailData.trackingNumber data);
               ("status", orString (EmailData.status data) "Pending");
               ("origin", EmailData.origin data);
               ("destination", EmailData.destination data);
               ("expected_delivery_date", EmailData.expectedDeliveryDate data);
               ("current_location",
                orString (EmailData.currentLocation data)
                         (EmailData.origin data));
               ("tracking_url",
                Email.DOMAIN ++ "/track/" ++ EmailData.trackingNumber data);
               ("to_email", EmailData.shipperEmail data)]
              (Email.envOrEmpty env (prefix ++ "_USER_ID")) sent
      with
      | (Email.Resolved response, sent') =>
          (if Email.status response =? 200 then Email.Resolved response
           else failure, sent')
      | (Email.Failed _, sent') => (failure, sent')
      end
    else (failure, sent).
Proof.
  intros failure prefix.
  unfold Email.sendShipperEmail, Email.tryCatch, Email.bind at 1.
  rewrite checkEmailConfig_outcome.
  destruct (forallb _ _); [|reflexivity].
  unfold Email.bind. fold prefix.
  destruct (Email.send _ _ _ _ _ _) as [[response|e] sent']; [|reflexivity].
  destruct (Email.status response =? 200); reflexivity.
Qed.

(** The configured case of [sendShipperEmail]. *)
Lemma sendShipperEmail_configured env emailjs data sent :
  let failure :=
    Email.Failed (Email.ErrorMessage "Failed to send shipper email") in
  let test := Email.isTest env in
  let service :=
    if test then "TEST__SERVICE_ID" else "REACT_APP_EMAILJS_SERVICE_ID" in
  let template :=
    if test then "TEST__SHIPPER_TEMPLATE_ID"
    else "REACT_APP_EMAILJS_SHIPPER_TEMPLATE_ID" in
  let user :=
    if test then "TEST__USER_ID" else "REACT_APP_EMAILJS_USER_ID" in
  Email.isSet env service = true ->
  Email.isSet env template = true ->
  Email.isSet env user = true ->
  exists request,
    Email.sendShipperEmail env emailjs data sent
    = (match emailjs (List.length sent) request with
       | Some response =>
           if Email.status response =? 200 then Email.Resolved response
           else failure
       | None => failure
       end, (sent ++ [request])%list)
    /\ env !! template = Some (Email.templateID request).
Proof.
  intros failure test service template user Es Et Eu.
  rewrite sendShipperEmail_run. cbv zeta. fold failure test.
  replace (Email.requiredVars env "SHIPPER") with [service; template; user]
    by (unfold Email.requiredVars; fold test; subst service template user;
        destruct test; reflexivity).
  replace ((if test then "TEST_" else "REACT_APP_EMAILJS") ++ "_SERVICE_ID")
    with service by (subst service; destruct test; reflexivity).
  replace ((if test then "TEST_" else "REACT_APP_EMAILJS")
           ++ "_SHIPPER_TEMPLATE_ID")
    with template by (subst template; destruct test; reflexivity).
  replace ((if test then "TEST_" else "REACT_APP_EMAILJS") ++ "_USER_ID")
    with user by (subst user; destruct test; reflexivity).
  cbn [forallb]. rewrite Es, Et, Eu. cbn [andb].
  destruct (isSet_Some _ _ Et) as (t & Hlt & _ & Hot).
  unfold Email.send.
  match goal with |- context [emailjs _ ?r] => exists r end.
  split; [|cbn; rewrite Hot; exact Hlt].
  destruct (emailjs _ _) as [response|]; reflexivity.
Qed.

(** X10. [sendShipperEmail] sends nothing unless the service, template
    and user variables are all set and not empty ([TEST__...], with two
    underscores, in test mode); then it makes exactly one call of
    [emailjs.send], with those three values, none of them empty, and
    returns the response when its status is 200. Every failure (a
    variable missing, a rejected call, another status) is thrown as the
    one message 'Failed to send shipper email': the list of missing
    variables is never reported. *)
Theorem sendShipperEmail_outcome env emailjs data sent :
  let failure :=
    Email.Failed (Email.ErrorMessage "Failed to send shipper email") in
  let test := Email.isTest env in
  let service :=
    if test then "TEST__SERVICE_ID" else "REACT_APP_EMAILJS_SERVICE_ID" in
  let template :=
    if test then "TEST__SHIPPER_TEMPLATE_ID"
    else "REACT_APP_EMAILJS_SHIPPER_TEMPLATE_ID" in
  let user :=
    if test then "TEST__USER_ID" else "REACT_APP_EMAILJS_USER_ID" in
  if Email.isSet env service && Email.isSet env template
     && Email.isSet env user
  then
    exists request,
      snd (Email.sendShipperEmail env emailjs data sent)
      = (sent ++ [request])%list
      /\ env !! service = Some (Email.serviceID request)
      /\ env !! template = Some (Email.templateID request)
      /\ env !! user = Some (Email.userID request)
      /\ Email.serviceID request <> ""
      /\ Email.templateID request <> ""
      /\ Email.userID request <> ""
      /\ fst (Email.sendShipperEmail env emailjs data sent)
         = match emailjs (List.length sent) request with
           | Some response =>
               if Email.status response =? 200 then Email.Resolved response
               else failure
           | None => failure
           end
  else Email.sendShipperEmail env emailjs data sent = (failure, sent).
Proof.
  intros failure test service template user.
  rewrite !sendShipperEmail_run. cbv zeta. fold failure test.
  assert (Hnames : Email.requiredVars env "SHIPPER" = [service; template; user]).
  { unfold Email.requiredVars. fold test. subst service template user.
    destruct test; reflexivity. }
  assert (Hread :
    (if test then "TEST_" else "REACT_APP_EMAILJS") ++ "_SERVICE_ID" = service
    /\ (if test then "TEST_" else "REACT_APP_EMAILJS") ++ "_SHIPPER_TEMPLATE_ID"
       = template
    /\ (if test then "TEST_" else "REACT_APP_EMAILJS") ++ "_USER_ID" = user).
  { subst service template user. destruct test; repeat split. }
  destruct Hread as (Hs & Ht & Hu).
  rewrite Hnames, Hs, Ht, Hu. cbn [forallb]. rewrite andb_true_r, andb_assoc.
  clearbody service template user.
  destruct (Email.isSet env service) eqn:Es; [|reflexivity].
  destruct (Email.isSet env template) eqn:Et; [|reflexivity].
  destruct (Email.isSet env user) eqn:Eu; [|reflexivity].
  cbn [andb].
  destruct (isSet_Some _ _ Es) as (s & Hls & Hns & Hos).
  destruct (isSet_Some _ _ Et) as (t & Hlt & Hnt & Hot).
  destruct (isSet_Some _ _ Eu) as (u & Hlu & Hnu & Hou).
  rewrite Hos, Hot, Hou. unfold Email.send.
  match goal with |- context [emailjs _ ?r] => exists r end.
  destruct (emailjs _ _) as [response|]; cbn; repeat split; assumption.
Qed.

(** What [sendReceiverEmail] does, path by path. *)
Lemma sendReceiverEmail_run env emailjs data sent :
  let failure :=
    Email.Failed (Email.ErrorMessage "Failed to send receiver email") in
  let prefix := if Email.isTest env then "TEST_" else "REACT_APP_EMAILJS" in
  Email.sendReceiverEmail env emailjs data sent
  = if forallb (Email.isSet env) (Email.requiredVars env "RECEIVER")
    then
      match Email.send emailjs
              (Email.envOrEmpty env (prefix ++ "_SERVICE_ID"))
              (Email.envOrEmpty env (prefix ++ "_RECEIVER_TEMPLATE_ID"))
              [("to_name", EmailData.receiverName data);
               ("tracking_number", EmailData.trackingNumber data);
               ("status", orString (EmailData.status data) "Pending");
               ("origin", EmailData.origin data);
               ("destination", EmailData.destination data);
               ("expected_delivery_date", EmailData.expectedDeliveryDate data);
               ("current_location",
                orString (EmailData.currentLocation data)
                         (EmailData.origin data));
               ("tracking_url",
                Email.DOMAIN ++ "/track/" ++ EmailData.trackingNumber data);
               ("to_email", EmailData.receiverEmail data)]
              (Email.envOrEmpty env (prefix ++ "_USER_ID")) sent
      with
      | (Email.Resolved response, sent') =>
          (if Email.status response =? 200 then Email.Resolved response
           else failure, sent')
      | (Email.Failed _, sent') => (failure, sent')
      end
    else (failure, sent).
Proof.
  intros failure prefix.
  unfold Email.sendReceiverEmail, Email.tryCatch, Email.bind at 1.
  rewrite checkEmailConfig_outcome.
  destruct (forallb _ _); [|reflexivity].
  unfold Email.bind. fold prefix.
  destruct (Email.send _ _ _ _ _ _) as [[response|e] sent']; [|reflexivity].
  destruct (Email.status response =? 200); reflexivity.
Qed.

(** The configured case of [sendReceiverEmail]. *)
Lemma sendReceiverEmail_configured env emailjs data sent :
  let failure :=
    Email.Failed (Email.ErrorMessage "Failed to send receiver email") in
  let test := Email.isTest env in
  let service :=
    if test then "TEST__SERVICE_ID" else "REACT_APP_EMAILJS_SERVICE_ID" in
  let template :=
    if test then "TEST__RECEIVER_TEMPLATE_ID"
    else "REACT_APP_EMAILJS_RECEIVER_TEMPLATE_ID" in
  let user :=
    if test then "TEST__USER_ID" else "REACT_APP_EMAILJS_USER_ID" in
  Email.isSet env service = true ->
  Email.isSet env template = true ->
  Email.isSet env user = true ->
  exists request,
    Email.sendReceiverEmail env emailjs data sent
    = (match emailjs (List.length sent) request with
       | Some response =>
           if Email.status response =? 200 then Email.Resolved response
           else failure
       | None => failure
       end, (sent ++ [request])%list)
    /\ env !! template = Some (Email.templateID request).
Proof.
  intros failure test service template user Es Et Eu.
  rewrite sendReceiverEmail_run. cbv zeta. fold failure test.
  replace (Email.requiredVars env "RECEIVER") with [service; template; user]
    by (unfold Email.requiredVars; fold test; subst service template user;
        destruct test; reflexivity).
  replace ((if test then "TEST_" else "REACT_APP_EMAILJS") ++ "_SERVICE_ID")
    with service by (subst service; destruct test; reflexivity).
  replace ((if test then "TEST_" else "REACT_APP_EMAILJS")
           ++ "_RECEIVER_TEMPLATE_ID")
    with template by (subst template; destruct test; reflexivity).
  replace ((if test then "TEST_" else "REACT_APP_EMAILJS") ++ "_USER_ID")
    with user by (subst user; destruct test; reflexivity).
  cbn [forallb]. rewrite Es, Et, Eu. cbn [andb].
  destruct (isSet_Some _ _ Et) as (t & Hlt & _ & Hot).
  unfold Email.send.
  match goal with |- context [emailjs _ ?r] => exists r end.
  split; [|cbn; rewrite Hot; exact Hlt].
  destruct (emailjs _ _) as [response|]; reflexivity.
Qed.

(** X11. [sendReceiverEmail] sends nothing unless the service, the
    receiver template and the user variables are all set and not empty;
    then it makes exactly one call of [emailjs.send], with those three
    values, and returns the response when its status is 200. Every
    failure is thrown as the one message 'Failed to send receiver
    email'. *)
Theorem sendReceiverEmail_outcome env emailjs data sent :
  let failure :=
    Email.Failed (Email.ErrorMessage "Failed to send receiver email") in
  let test := Email.isTest env in
  let service :=
    if test then "TEST__SERVICE_ID" else "REACT_APP_EMAILJS_SERVICE_ID" in
  let template :=
    if test then "TEST__RECEIVER_TEMPLATE_ID"
    else "REACT_APP_EMAILJS_RECEIVER_TEMPLATE_ID" in
  let user :=
    if test then "TEST__USER_ID" else "REACT_APP_EMAILJS_USER_ID" in
  if Email.isSet env service && Email.isSet env template
     && Email.isSet env user
  then
    exists request,
      snd (Email.sendReceiverEmail env emailjs data sent)
      = (sent ++ [request])%list
      /\ env !! service = Some (Email.serviceID request)
      /\ env !! template = Some (Email.templateID request)
      /\ env !! user = Some (Email.userID request)
      /\ Email.serviceID request <> ""
      /\ Email.templateID request <> ""
      /\ Email.userID request <> ""
      /\ fst (Email.sendReceiverEmail env emailjs data sent)
         = match emailjs (List.length sent) request with
           | Some response =>
               if Email.status response =? 200 then Email.Resolved response
               else failure
           | None => failure
           end
  else Email.sendReceiverEmail env emailjs data sent = (failure, sent).
Proof.
  intros failure test service template user.
  rewrite !sendReceiverEmail_run. cbv zeta. fold failure test.
  assert (Hnames : Email.requiredVars env "RECEIVER" = [service; template; user]).
  { unfold Email.requiredVars. fold test. subst service template user.
    destruct test; reflexivity. }
  assert (Hread :
    (if test then "TEST_" else "REACT_APP_EMAILJS") ++ "_SERVICE_ID" = service
    /\ (if test then "TEST_" else "REACT_APP_EMAILJS") ++ "_RECEIVER_TEMPLATE_ID"
       = template
    /\ (if test then "TEST_" else "REACT_APP_EMAILJS") ++ "_USER_ID" = user).
  { subst service template user. destruct test; repeat split. }
  destruct Hread as (Hs & Ht & Hu).
  rewrite Hnames, Hs, Ht, Hu. cbn [forallb]. rewrite andb_true_r, andb_assoc.
  clearbody service template user.
  destruct (Email.isSet env service) eqn:Es; [|reflexivity].
  destruct (Email.isSet env template) eqn:Et; [|reflexivity].
  destruct (Email.isSet env user) eqn:Eu; [|reflexivity].
  cbn [andb].
  destruct (isSet_Some _ _ Es) as (s & Hls & Hns & Hos).
  destruct (isSet_Some _ _ Et) as (t & Hlt & Hnt & Hot).
  destruct (isSet_Some _ _ Eu) as (u & Hlu & Hnu & Hou).
  rewrite Hos, Hot, Hou. unfold Email.send.
  match goal with |- context [emailjs _ ?r] => exists r end.
  destruct (emailjs _ _) as [response|]; cbn; repeat split; assumption.
Qed.

(** X12. [sendContactFormEmail] checks no configuration: it always makes
    exactly one call of [emailjs.send], with the secondary service,
    contact template and user values, each replaced by the empty string
    when its variable is missing, so that with no variable set the call
    is made with three empty identifiers. The reply address is the
    sender's address. The response is returned when its status is 200;
    any other outcome is thrown as 'Failed to send contact form email'. *)
Theorem sendContactFormEmail_always_sends env emailjs data sent :
  let failure :=
    Email.Failed (Email.ErrorMessage "Failed to send contact form email") in
  let test := Email.isTest env in
  let request :=
    {| Email.serviceID :=
         Email.envOrEmpty env
           (if test then "TEST__SERVICE_ID"
            else "REACT_APP_EMAILJS_SECONDARY_SERVICE_ID");
       Email.templateID :=
         Email.envOrEmpty env
           (if test then "TEST__CONTACT_TEMPLATE_ID"
            else "REACT_APP_EMAILJS_SECONDARY_CONTACT_TEMPLATE_ID");
       Email.templateParams :=
         [("from_name", ContactFormData.name data);
          ("from_email", ContactFormData.email data);
          ("subject", ContactFormData.subject data);
          ("message", ContactFormData.message data);
          ("reply_to", ContactFormData.email data)];
       Email.userID :=
         Email.envOrEmpty env
           (if test then "TEST__USER_ID"
            else "REACT_APP_EMAILJS_SECONDARY_USER_ID") |} in
  Email.sendContactFormEmail env emailjs data sent
  = (match emailjs (List.length sent) request with
     | Some response =>
         if Email.status response =? 200 then Email.Resolved response
         else failure
     | None => failure
     end,
     (sent ++ [request])%list)
  /\ (env = ∅ ->
      Email.serviceID request = "" /\ Email.templateID request = ""
      /\ Email.userID request = "").
Proof.
  intros failure test request. split.
  - unfold Email.sendContactFormEmail, Email.tryCatch, Email.bind, Email.send.
    fold test.
    replace ((if test then "TEST_" else "REACT_APP_EMAILJS_SECONDARY")
             ++ "_SERVICE_ID")
      with (if test then "TEST__SERVICE_ID"
            else "REACT_APP_EMAILJS_SECONDARY_SERVICE_ID")
      by (destruct test; reflexivity).
    replace ((if test then "TEST_" else "REACT_APP_EMAILJS_SECONDARY")
             ++ "_CONTACT_TEMPLATE_ID")
      with (if test then "TEST__CONTACT_TEMPLATE_ID"
            else "REACT_APP_EMAILJS_SECONDARY_CONTACT_TEMPLATE_ID")
      by (destruct test; reflexivity).
    replace ((if test then "TEST_" else "REACT_APP_EMAILJS_SECONDARY")
             ++ "_USER_ID")
      with (if test then "TEST__USER_ID"
            else "REACT_APP_EMAILJS_SECONDARY_USER_ID")
      by (destruct test; reflexivity).
    fold request.
    destruct (emailjs _ _) as [response|]; [|reflexivity].
    destruct (Email.status response =? 200); reflexivity.
  - intros ->. subst request. cbn. unfold Email.envOrEmpty.
    rewrite !lookup_empty. repeat split.
Qed.

Lemma sendContactFormEmail_always_sends_witness :
  let data := {| ContactFormData.name := "Ada";
                 ContactFormData.email := "ada@example.com";
                 ContactFormData.subject := "Hello";
                 ContactFormData.message := "Where is my parcel?" |} in
  List.length (snd (Email.sendContactFormEmail ∅ (fun _ _ => None) data []))
  = 1%nat.
Proof.
  intros data.
  destruct (sendContactFormEmail_always_sends ∅ (fun _ _ => None) data [])
    as (Hrun & _).
  rewrite Hrun. reflexivity.
Defined.

(** X13. With the service, both templates and the user variables set,
    [sendTestEmails] makes exactly two calls of [emailjs.send], the
    shipper mail first and the receiver mail second, whatever the answer
    to the first: the receiver mail is attempted even when the shipper
    mail fails. It returns true exactly when both answers have status
    200, and throws 'Failed to send test emails' otherwise. *)
Theorem sendTestEmails_attempts_both env emailjs today sent :
  let test := Email.isTest env in
  let service :=
    if test then "TEST__SERVICE_ID" else "REACT_APP_EMAILJS_SERVICE_ID" in
  let shipper :=
    if test then "TEST__SHIPPER_TEMPLATE_ID"
    else "REACT_APP_EMAILJS_SHIPPER_TEMPLATE_ID" in
  let receiver :=
    if test then "TEST__RECEIVER_TEMPLATE_ID"
    else "REACT_APP_EMAILJS_RECEIVER_TEMPLATE_ID" in
  let user :=
    if test then "TEST__USER_ID" else "REACT_APP_EMAILJS_USER_ID" in
  Email.isSet env service = true ->
  Email.isSet env shipper = true ->
  Email.isSet env receiver = true ->
  Email.isSet env user = true ->
  exists first second,
    snd (Email.sendTestEmails env emailjs today sent)
    = (sent ++ [first; second])%list
    /\ env !! shipper = Some (Email.templateID first)
    /\ env !! receiver = Some (Email.templateID second)
    /\ fst (Email.sendTestEmails env emailjs today sent)
       = match emailjs (List.length sent) first,
               emailjs (S (List.length sent)) second with
         | Some a, Some b =>
             if (Email.status a =? 200) && (Email.status b =? 200)
             then Email.Resolved true
             else Email.Failed (Email.ErrorMessage "Failed to send test emails")
         | _, _ => Email.Failed (Email.ErrorMessage "Failed to send test emails")
         end.
Proof.
  intros test service shipper receiver user Hs Hts Htr Hu.
  unfold Email.sendTestEmails, Email.tryCatch, Email.bind, Email.promiseAll.
  set (testData := {| EmailData.trackingNumber := "TEST123456" |}).
  destruct (sendShipperEmail_configured env emailjs testData sent Hs Hts Hu)
    as (first & Hrun1 & Ht1).
  rewrite Hrun1.
  destruct (sendReceiverEmail_configured env emailjs testData
              (sent ++ [first])%list Hs Htr Hu)
    as (second & Hrun2 & Ht2).
  rewrite Hrun2, length_app. cbn [List.length]. rewrite Nat.add_1_r.
  exists first, second. rewrite <- app_assoc. cbn [app].
  destruct (emailjs (List.length sent) first) as [a|];
    destruct (emailjs (S (List.length sent)) second) as [b|];
    try destruct (Email.status a =? 200);
    try destruct (Email.status b =? 200);
    cbn; auto.
Qed.

Lemma sendTestEmails_attempts_both_witness :
  let env : gmap string string :=
    <["REACT_APP_EMAILJS_SERVICE_ID" := "service"]>
      (<["REACT_APP_EMAILJS_SHIPPER_TEMPLATE_ID" := "shipper"]>
         (<["REACT_APP_EMAILJS_RECEIVER_TEMPLATE_ID" := "receiver"]>
            (<["REACT_APP_EMAILJS_USER_ID" := "user"]> ∅))) in
  List.length (snd (Email.sendTestEmails env (fun _ _ => None)
                      "2026-01-31" []))
  = 2%nat.
Proof.
  intros env.
  destruct (sendTestEmails_attempts_both env (fun _ _ => None) "2026-01-31" []
              eq_refl eq_refl eq_refl eq_refl)
    as (first & second & Hsent & _).
  rewrite Hsent. reflexivity.
Defined.

(** The request a shipper or receiver mail is sent with. *)
Lemma trackingMail_sent env emailjs data sent request :
  let prefix := if Email.isTest env then "TEST_" else "REACT_APP_EMAILJS" in
  (snd (Email.sendShipperEmail env emailjs data sent)
   = (sent ++ [request])%list ->
   request
   = {| Email.serviceID := Email.envOrEmpty env (prefix ++ "_SERVICE_ID");
        Email.templateID :=
          Email.envOrEmpty env (prefix ++ "_SHIPPER_TEMPLATE_ID");
        Email.templateParams :=
          [("to_name", EmailData.shipperName data);
           ("tracking_number", EmailData.trackingNumber data);
           ("status", orString (EmailData.status data) "Pending");
           ("origin", EmailData.origin data);
           ("destination", EmailData.destination data);
           ("expected_delivery_date", EmailData.expectedDeliveryDate data);
           ("current_location",
            orString (EmailData.currentLocation data)
                     (EmailData.origin data));
           ("tracking_url",
            Email.DOMAIN ++ "/track/" ++ EmailData.trackingNumber data);
           ("to_email", EmailData.shipperEmail data)];
        Email.userID := Email.envOrEmpty env (prefix ++ "_USER_ID") |})
  /\ (snd (Email.sendReceiverEmail env emailjs data sent)
      = (sent ++ [request])%list ->
      request
      = {| Email.serviceID := Email.envOrEmpty env (prefix ++ "_SERVICE_ID");
           Email.templateID :=
             Email.envOrEmpty env (prefix ++ "_RECEIVER_TEMPLATE_ID");
           Email.templateParams :=
             [("to_name", EmailData.receiverName data);
              ("tracking_number", EmailData.trackingNumber data);
              ("status", orString (EmailData.status data) "Pending");
              ("origin", EmailData.origin data);
              ("destination", EmailData.destination data);
              ("expected_delivery_date", EmailData.expectedDeliveryDate data);
              ("current_location",
               orString (EmailData.currentLocation data)
                        (EmailData.origin data));
              ("tracking_url",
               Email.DOMAIN ++ "/track/" ++ EmailData.trackingNumber data);
              ("to_email", EmailData.receiverEmail data)];
           Email.userID := Email.envOrEmpty env (prefix ++ "_USER_ID") |}).
Proof.
  intros prefix.
  assert (Hnil : forall (l : list Email.SendRequest) x, l <> (l ++ [x])%list).
  { intros l x H. apply (f_equal (@List.length _)) in H.
    rewrite length_app in H. cbn in H. lia. }
  split; intros Hsent;
    [rewrite sendShipperEmail_run in Hsent
    |rewrite sendReceiverEmail_run in Hsent];
    cbv zeta in Hsent;
    (destruct (forallb _ _); [|exfalso; exact (Hnil _ _ Hsent)]);
    unfold Email.send in Hsent;
    destruct (emailjs _ _) in Hsent; cbn [snd] in Hsent;
    apply app_inv_head in Hsent; injection Hsent as <-; reflexivity.
Qed.

(** X15. The shipper mail and the receiver mail sent for the same data
    carry the same parameters, [to_name] and [to_email] apart, through
    the same service and user identifiers; the mail goes to the shipper's
    address, respectively the receiver's. The status sent is never empty
    ('Pending' stands in for a missing or empty one), the current
    location falls back to the origin, and the tracking link is the
    domain followed by [/track/] and the tracking number as it is. *)
Theorem tracking_mails_agree env emailjs data sent sent' shipper receiver :
  snd (Email.sendShipperEmail env emailjs data sent)
  = (sent ++ [shipper])%list ->
  snd (Email.sendReceiverEmail env emailjs data sent')
  = (sent' ++ [receiver])%list ->
  (forall key, key <> "to_name" -> key <> "to_email" ->
     parameter key (Email.templateParams shipper)
     = parameter key (Email.templateParams receiver))
  /\ Email.serviceID shipper = Email.serviceID receiver
  /\ Email.userID shipper = Email.userID receiver
  /\ parameter "to_email" (Email.templateParams shipper)
     = Some (EmailData.shipperEmail data)
  /\ parameter "to_email" (Email.templateParams receiver)
     = Some (EmailData.receiverEmail data)
  /\ (exists status,
        parameter "status" (Email.templateParams shipper) = Some status
        /\ status <> ""
        /\ (EmailData.status data = None \/ EmailData.status data = Some "" ->
            status = "Pending"))
  /\ (EmailData.currentLocation data = None
      \/ EmailData.currentLocation data = Some "" ->
      parameter "current_location" (Email.templateParams shipper)
      = Some (EmailData.origin data))
  /\ parameter "tracking_url" (Email.templateParams shipper)
     = Some ("https://tracking-blond.vercel.app/track/"
             ++ EmailData.trackingNumber data).
Proof.
  intros Hs Hr.
  apply (proj1 (trackingMail_sent env emailjs data sent shipper)) in Hs.
  apply (proj2 (trackingMail_sent env emailjs data sent' receiver)) in Hr.
  subst shipper receiver. cbn [Email.templateParams Email.serviceID
                               Email.userID].
  split; [|repeat split].
  - intros key Hname Hmail. cbn [parameter].
    apply String.eqb_neq in Hname, Hmail. rewrite Hname, Hmail. reflexivity.
  - exists (orString (EmailData.status data) "Pending").
    split; [reflexivity|]. split.
    + unfold orString. destruct (EmailData.status data) as [[|c s0]|];
        cbn; discriminate.
    + intros [-> | ->]; reflexivity.
  - intros [-> | ->]; reflexivity.
Qed.

Lemma tracking_mails_agree_witness :
  let env : gmap string string :=
    <["REACT_APP_EMAILJS_SERVICE_ID" := "service"]>
      (<["REACT_APP_EMAILJS_SHIPPER_TEMPLATE_ID" := "shipper"]>
         (<["REACT_APP_EMAILJS_RECEIVER_TEMPLATE_ID" := "receiver"]>
            (<["REACT_APP_EMAILJS_USER_ID" := "user"]> ∅))) in
  let data :=
    {| EmailData.trackingNumber := "NV 42/7";
       EmailData.shipperName := "Ada";
       EmailData.shipperEmail := "ada@example.com";
       EmailData.receiverName := "Bob";
       EmailData.receiverEmail := "bob@example.com";
       EmailData.origin := "Lagos";
       EmailData.destination := "Accra";
       EmailData.expectedDeliveryDate := "2026-02-01";
       EmailData.status := Some "";
       EmailData.currentLocation := None;
       EmailData.packages := None |} in
  let mail template name address :=
    {| Email.serviceID := "service";
       Email.templateID := template;
       Email.templateParams :=
         [("to_name", name);
          ("tracking_number", "NV 42/7");
          ("status", "Pending");
          ("origin", "Lagos");
          ("destination", "Accra");
          ("expected_delivery_date", "2026-02-01");
          ("current_location", "Lagos");
          ("tracking_url", "https://tracking-blond.vercel.app/track/NV 42/7");
          ("to_email", address)];
       Email.userID := "user" |} in
  snd (Email.sendShipperEmail env (fun _ _ => None) data [])
  = [mail "shipper" "Ada" "ada@example.com"]
  /\ snd (Email.sendReceiverEmail env (fun _ _ => None) data [])
     = [mail "receiver" "Bob" "bob@example.com"]
  /\ Email.userID (mail "shipper" "Ada" "ada@example.com")
     = Email.userID (mail "receiver" "Bob" "bob@example.com").
Proof.
  intros env data mail.
  assert (Hs : snd (Email.sendShipperEmail env (fun _ _ => None) data [])
               = ([] ++ [mail "shipper" "Ada" "ada@example.com"])%list)
    by reflexivity.
  assert (Hr : snd (Email.sendReceiverEmail env (fun _ _ => None) data [])
               = ([] ++ [mail "receiver" "Bob" "bob@example.com"])%list)
    by reflexivity.
  split; [exact Hs|]. split; [exact Hr|].
  apply (tracking_mails_agree env (fun _ _ => None) data [] [] _ _ Hs Hr).
Defined.
